(** * SimpleImage: a shallow embedding of the Editor.js image block tool

    The development follows [src/dist/index.d.ts] (class [SimpleImage]).

    - JavaScript strings are [string]s; a character stands for a code unit
      below 256.
    - The data object of the tool is a record whose absent properties, which
      read as [undefined], are [None].
    - An element that the tool receives ([save], [onPaste]) is a tree; the
      elements that the tool creates and mutates live in a store and are
      named by their index in it.
    - Methods pass the state of the object explicitly. The state includes
      what the tool does to its host: the calls to the Editor.js API and to
      the console, and the file reads whose promise is pending.
    - What the browser and the host do to the tool (load and error events of
      an image, the load event of a file reader, calls of the public
      methods) are the events of a transition system. *)

From Equations Require Import Equations.
From stdpp Require Import base option list strings.
From Stdlib Require Import Ascii String ZArith Lia Bool.

Local Open Scope string_scope.
Local Open Scope list_scope.
#[local] Arguments String.append !_ _ / : simpl nomatch.

(* ===================================================================== *)
(** * Part I. The program                                                  *)
(* ===================================================================== *)

(* --------------------------------------------------------------------- *)
(** ** JavaScript strings                                                  *)
(* --------------------------------------------------------------------- *)

(** JavaScript truthiness of a string: only the empty string is falsy. *)
Definition truthy (s : string) : bool :=
  match s with
  | EmptyString => false
  | String _ _ => true
  end.

(** [startsWith pat s] is the text after [pat] when [s] begins with [pat]:
    one attempt of a literal pattern at the current position. *)
Fixpoint startsWith (pat s : string) : option string :=
  match pat with
  | EmptyString => Some s
  | String p pat' =>
      match s with
      | EmptyString => None
      | String c s' => if Ascii.eqb p c then startsWith pat' s' else None
      end
  end.

Lemma startsWith_length pat s rest :
  startsWith pat s = Some rest ->
  String.length s = String.length pat + String.length rest.
Proof.
  revert s; induction pat as [|p pat IH]; intros s H; simpl in *.
  - congruence.
  - destruct s as [|c s]; [discriminate|].
    destruct (Ascii.eqb p c); [|discriminate].
    simpl. rewrite (IH _ H). reflexivity.
Qed.

Definition inspect {A} (a : A) : {b | a = b} := exist _ a eq_refl.

(** What a global replace does with a pattern that matches the empty string:
    the replacement is inserted at every position. *)
Fixpoint between (rep s : string) : string :=
  match s with
  | EmptyString => rep
  | String c s' => rep +:+ String c (between rep s')
  end.

(** [s.replace(/pat/g, rep)] for a literal pattern [pat] and a replacement
    text without [$]: the input is scanned from the left; where the pattern
    matches, the replacement is emitted and the scan resumes after the match,
    otherwise one character is copied. *)
Equations? replace (pat rep s : string) : string by wf (String.length s) lt :=
  replace EmptyString rep s := between rep s;
  replace (String p ps) rep EmptyString := EmptyString;
  replace (String p ps) rep (String c s')
    with inspect (startsWith (String p ps) (String c s')) => {
    | exist _ (Some rest) Heq := rep +:+ replace (String p ps) rep rest;
    | exist _ None _ := String c (replace (String p ps) rep s') }.
Proof.
  - apply startsWith_length in Heq. simpl in *. lia.
  - simpl. lia.
Qed.

Definition quot : string := String "034"%char EmptyString.
Definition apos : string := String "039"%char EmptyString.

(** [decodeHTMLEntities] (index.d.ts:667-676). *)
Definition decodeHTMLEntities (str : string) : string :=
  if negb (truthy str) then str
  else
    replace "&#039;" apos
      (replace "&quot;" quot
         (replace "&gt;" ">"
            (replace "&lt;" "<"
               (replace "&amp;" "&" str)))).

(* --------------------------------------------------------------------- *)
(** ** The data record                                                     *)
(* --------------------------------------------------------------------- *)

(** [SimpleImageData] (index.d.ts:246-267) as a JavaScript object: a
    property that the object does not have, which reads as [undefined], is
    [None]. *)
Record SimpleImageData := {
  url : option string;
  caption : option string;
  withBorder : option bool;
  withBackground : option bool;
  stretched : option bool;
}.

(** The object without properties. As a source of [Object.assign] it acts
    like [undefined], the value of [_data] before the first assignment. *)
Definition no_properties : SimpleImageData :=
  {| url := None; caption := None; withBorder := None;
     withBackground := None; stretched := None |}.

Definition override {A} (old new : option A) : option A :=
  match new with
  | Some _ => new
  | None => old
  end.

(** [Object.assign(target, source)]: the properties of [source] win. *)
Definition assign (target source : SimpleImageData) : SimpleImageData :=
  {| url := override (url target) (url source);
     caption := override (caption target) (caption source);
     withBorder := override (withBorder target) (withBorder source);
     withBackground := override (withBackground target) (withBackground source);
     stretched := override (stretched target) (stretched source) |}.

(** [v || ""] for a string property that may be undefined. *)
Definition or_empty (v : option string) : string :=
  match v with
  | Some s => if truthy s then s else ""
  | None => ""
  end.

(** [v !== undefined ? v : false]. *)
Definition or_false (v : option bool) : bool :=
  match v with
  | Some b => b
  | None => false
  end.

(** [!!v] for a boolean property that may be undefined. *)
Definition to_boolean (v : option bool) : bool :=
  match v with
  | Some b => b
  | None => false
  end.

(** What a DOM property setter stores for a string that may be undefined. *)
Definition to_string (v : option string) : string :=
  match v with
  | Some s => s
  | None => "undefined"
  end.

(* --------------------------------------------------------------------- *)
(** ** The DOM                                                             *)
(* --------------------------------------------------------------------- *)

(** The properties of an element that the tool reads or writes. Class names
    are taken to be valid tokens and [innerHTML] is kept as the text that was
    assigned or that the browser reports. *)
Record Properties := {
  localName : string;
  classList : list string;
  src : string;
  innerHTML : string;
  contentEditable : option bool;
  placeholder : option string;
}.

(** An element with its subtree, as [save] and [onPaste] receive it. *)
#[local] Unset Elimination Schemes.
Inductive Element : Type :=
| El (props : Properties) (childNodes : list Element).
#[local] Set Elimination Schemes.

Definition props_of (e : Element) : Properties :=
  match e with El p _ => p end.

Definition childNodes_of (e : Element) : list Element :=
  match e with El _ l => l end.

(** The selectors the tool uses: a type selector and a class selector. *)
Inductive Selector :=
| ByTag (name : string)
| ByClass (name : string).

Definition selects (sel : Selector) (p : Properties) : bool :=
  match sel with
  | ByTag n => String.eqb (localName p) n
  | ByClass c => bool_decide (c ∈ classList p)
  end.

(** [root.querySelector(sel)]: the first descendant of [root], in document
    order, that the selector selects. *)
Fixpoint querySelector (sel : Selector) (root : Element) : option Element :=
  (fix first (l : list Element) : option Element :=
     match l with
     | [] => None
     | c :: l' =>
         if selects sel (props_of c) then Some c
         else match querySelector sel c with
              | Some found => Some found
              | None => first l'
              end
     end) (childNodes_of root).

(** [img instanceof HTMLImageElement]. *)
Definition is_HTMLImageElement (e : Element) : bool :=
  String.eqb (localName (props_of e)) "img".

(** The closure assigned to [image.onload] by [render], as the nodes it
    captured (index.d.ts:531-538). *)
Record LoadHandler := {
  h_wrapper : nat;
  h_loader : nat;
  h_imageHolder : nat;
  h_image : nat;
  h_caption : nat;
}.

(** An element created by the tool. Children are node ids. *)
Record HTMLElement := {
  props : Properties;
  children : list nat;
  onload : option LoadHandler;
  onerror : bool;
}.

(** The elements created so far; a node is its index. *)
Abbreviation Dom := (list HTMLElement).

Definition with_props (f : Properties -> Properties) (e : HTMLElement) : HTMLElement :=
  {| props := f (props e); children := children e;
     onload := onload e; onerror := onerror e |}.

Definition with_children (f : list nat -> list nat) (e : HTMLElement) : HTMLElement :=
  {| props := props e; children := f (children e);
     onload := onload e; onerror := onerror e |}.

Definition with_handlers (l : option LoadHandler) (r : bool) (e : HTMLElement) : HTMLElement :=
  {| props := props e; children := children e; onload := l; onerror := r |}.

Definition set_classList (f : list string -> list string) (p : Properties) : Properties :=
  {| localName := localName p; classList := f (classList p); src := src p;
     innerHTML := innerHTML p; contentEditable := contentEditable p;
     placeholder := placeholder p |}.

Definition set_src (v : string) (p : Properties) : Properties :=
  {| localName := localName p; classList := classList p; src := v;
     innerHTML := innerHTML p; contentEditable := contentEditable p;
     placeholder := placeholder p |}.

Definition set_innerHTML (v : string) (p : Properties) : Properties :=
  {| localName := localName p; classList := classList p; src := src p;
     innerHTML := v; contentEditable := contentEditable p;
     placeholder := placeholder p |}.

Definition set_contentEditable (v : bool) (p : Properties) : Properties :=
  {| localName := localName p; classList := classList p; src := src p;
     innerHTML := innerHTML p; contentEditable := Some v;
     placeholder := placeholder p |}.

Definition set_placeholder (v : string) (p : Properties) : Properties :=
  {| localName := localName p; classList := classList p; src := src p;
     innerHTML := innerHTML p; contentEditable := contentEditable p;
     placeholder := Some v |}.

(** [document.createElement(tagName)]. *)
Definition createElement (tagName : string) (d : Dom) : nat * Dom :=
  (List.length d,
   d ++ [ {| props := {| localName := tagName; classList := []; src := "";
                         innerHTML := ""; contentEditable := None;
                         placeholder := None |};
             children := []; onload := None; onerror := false |} ]).

(** [DOMTokenList]: an ordered set of tokens. *)
Definition token_add (c : string) (l : list string) : list string :=
  if bool_decide (c ∈ l) then l else l ++ [c].

Definition token_remove (c : string) (l : list string) : list string :=
  filter (fun x => x ≠ c) l.

Definition token_toggle (c : string) (force : bool) (l : list string) : list string :=
  if force then token_add c l else token_remove c l.

Definition classList_add (n : nat) (cs : list string) (d : Dom) : Dom :=
  alter (with_props (set_classList (fun l => foldl (fun l c => token_add c l) l cs))) n d.

Definition classList_remove (n : nat) (c : string) (d : Dom) : Dom :=
  alter (with_props (set_classList (token_remove c))) n d.

Definition classList_toggle (n : nat) (c : string) (force : bool) (d : Dom) : Dom :=
  alter (with_props (set_classList (token_toggle c force))) n d.

(** [child.remove()]: the node leaves its parent. *)
Definition remove_node (child : nat) (d : Dom) : Dom :=
  with_children (filter (fun x => x ≠ child)) <$> d.

(** [parent.appendChild(child)]: the node leaves its parent, if it has one,
    and becomes the last child of [parent]. *)
Definition appendChild (parent child : nat) (d : Dom) : Dom :=
  alter (with_children (fun l => l ++ [child])) parent (remove_node child d).

(* --------------------------------------------------------------------- *)
(** ** The host                                                            *)
(* --------------------------------------------------------------------- *)

(** What the tool reads from the Editor.js API object. *)
Record API := {
  styles_block : string;
  styles_loader : string;
  styles_input : string;
  getCurrentBlockIndex : Z;
}.

(** The calls the tool makes to its host, in the order it makes them. *)
Inductive HostCall :=
| StretchBlock (index : Z) (status : bool)
| ConsoleLog (message : string).

Record File := {
  name : string;
}.

(** [FileReader.result] when the load event fires. *)
Inductive ReaderResult :=
| ResultString (s : string)
| ResultOther.

(** The paste events, by their [type] (index.d.ts:629-660). *)
Inductive PasteEvent :=
| TagPaste (data : Element)
| PatternPaste (key : string) (data : string)
| FilePaste (file : File)
| OtherPaste (type : string).

(* --------------------------------------------------------------------- *)
(** ** The tool                                                            *)
(* --------------------------------------------------------------------- *)

Record SimpleImageCSS := {
  css_baseClass : string;
  css_loading : string;
  css_input : string;
  css_wrapper : string;
  css_imageHolder : string;
  css_caption : string;
}.

Record Nodes := {
  nodes_wrapper : option nat;
  nodes_imageHolder : option nat;
  nodes_image : option nat;
  nodes_caption : option nat;
}.

(** The names of [this.tunes]; they are the boolean keys of the data. *)
Inductive TuneName := TuneWithBorder | TuneStretched | TuneWithBackground.

Definition tune_name (n : TuneName) : string :=
  match n with
  | TuneWithBorder => "withBorder"
  | TuneStretched => "stretched"
  | TuneWithBackground => "withBackground"
  end.

Record Tune := {
  tune : TuneName;
  label : string;
}.

(** The state of a [SimpleImage] object, with the part of the world it acts
    on: the elements it created, the file reads it started and whose promise
    is not settled, and the calls it made to the host. *)
Record SimpleImage := {
  api : API;
  readOnly : bool;
  blockIndex : Z;
  _data : SimpleImageData;
  CSS : SimpleImageCSS;
  nodes : Nodes;
  tunes : list Tune;
  dom : Dom;
  reading : list File;
  calls : list HostCall;
}.

Definition with_data (v : SimpleImageData) (this : SimpleImage) : SimpleImage :=
  {| api := api this; readOnly := readOnly this; blockIndex := blockIndex this;
     _data := v; CSS := CSS this; nodes := nodes this; tunes := tunes this;
     dom := dom this; reading := reading this; calls := calls this |}.

Definition with_nodes (v : Nodes) (this : SimpleImage) : SimpleImage :=
  {| api := api this; readOnly := readOnly this; blockIndex := blockIndex this;
     _data := _data this; CSS := CSS this; nodes := v; tunes := tunes this;
     dom := dom this; reading := reading this; calls := calls this |}.

Definition with_tunes (v : list Tune) (this : SimpleImage) : SimpleImage :=
  {| api := api this; readOnly := readOnly this; blockIndex := blockIndex this;
     _data := _data this; CSS := CSS this; nodes := nodes this; tunes := v;
     dom := dom this; reading := reading this; calls := calls this |}.

Definition with_dom (v : Dom) (this : SimpleImage) : SimpleImage :=
  {| api := api this; readOnly := readOnly this; blockIndex := blockIndex this;
     _data := _data this; CSS := CSS this; nodes := nodes this; tunes := tunes this;
     dom := v; reading := reading this; calls := calls this |}.

Definition with_reading (v : list File) (this : SimpleImage) : SimpleImage :=
  {| api := api this; readOnly := readOnly this; blockIndex := blockIndex this;
     _data := _data this; CSS := CSS this; nodes := nodes this; tunes := tunes this;
     dom := dom this; reading := v; calls := calls this |}.

Definition call (c : HostCall) (this : SimpleImage) : SimpleImage :=
  {| api := api this; readOnly := readOnly this; blockIndex := blockIndex this;
     _data := _data this; CSS := CSS this; nodes := nodes this; tunes := tunes this;
     dom := dom this; reading := reading this; calls := calls this ++ [c] |}.

(** [get data()] (index.d.ts:683-685). *)
Definition data (this : SimpleImage) : SimpleImageData := _data this.

(** [set data(data)] (index.d.ts:692-707). *)
Definition set_data (data0 : SimpleImageData) (this : SimpleImage) : SimpleImage :=
  let data1 :=
    match url data0 with
    | Some u =>
        if truthy u then
          {| url := Some (decodeHTMLEntities u); caption := caption data0;
             withBorder := withBorder data0;
             withBackground := withBackground data0;
             stretched := stretched data0 |}
        else data0
    | None => data0
    end in
  let this := with_data (assign (assign no_properties (data this)) data1) this in
  let this :=
    match nodes_image (nodes this) with
    | Some image =>
        with_dom (alter (with_props (set_src (to_string (url (data this)))))
                    image (dom this)) this
    | None => this
    end in
  match nodes_caption (nodes this) with
  | Some cap =>
      with_dom (alter (with_props (set_innerHTML (to_string (caption (data this)))))
                  cap (dom this)) this
  | None => this
  end.

(** [this.data[tune]] and [this.data[tune] = v]. *)
Definition get_flag (n : TuneName) (d : SimpleImageData) : option bool :=
  match n with
  | TuneWithBorder => withBorder d
  | TuneStretched => stretched d
  | TuneWithBackground => withBackground d
  end.

Definition set_flag (n : TuneName) (v : bool) (d : SimpleImageData) : SimpleImageData :=
  match n with
  | TuneWithBorder =>
      {| url := url d; caption := caption d; withBorder := Some v;
         withBackground := withBackground d; stretched := stretched d |}
  | TuneStretched =>
      {| url := url d; caption := caption d; withBorder := withBorder d;
         withBackground := withBackground d; stretched := Some v |}
  | TuneWithBackground =>
      {| url := url d; caption := caption d; withBorder := withBorder d;
         withBackground := Some v; stretched := stretched d |}
  end.

(** The constructor (index.d.ts:421-497). The elements of a new tool are
    created by [render]; nothing is being read and no call was made. *)
Definition constructor (data0 : SimpleImageData) (api0 : API) (readOnly0 : bool)
  : SimpleImage :=
  let this :=
    {| api := api0;
       readOnly := readOnly0;
       blockIndex := getCurrentBlockIndex api0 + 1;
       _data := no_properties;
       CSS := {| css_baseClass := styles_block api0;
                 css_loading := styles_loader api0;
                 css_input := styles_input api0;
                 css_wrapper := "cdx-simple-image";
                 css_imageHolder := "cdx-simple-image__picture";
                 css_caption := "cdx-simple-image__caption" |};
       nodes := {| nodes_wrapper := None; nodes_imageHolder := None;
                   nodes_image := None; nodes_caption := None |};
       tunes := []; dom := []; reading := []; calls := [] |} in
  let this :=
    set_data
      {| url := Some (or_empty (url data0));
         caption := Some (or_empty (caption data0));
         withBorder := Some (or_false (withBorder data0));
         withBackground := Some (or_false (withBackground data0));
         stretched := Some (or_false (stretched data0)) |} this in
  with_tunes
    [ {| tune := TuneWithBorder; label := "Add Border" |};
      {| tune := TuneStretched; label := "Stretch Image" |};
      {| tune := TuneWithBackground; label := "Add Background" |} ] this.

(** The callback of [name.replace(/([A-Z])/g, ...)] in [_acceptTuneView]:
    an upper-case letter becomes a dash and the letter in lower case. *)
Definition is_upper (c : ascii) : bool :=
  (65 <=? nat_of_ascii c)%nat && (nat_of_ascii c <=? 90)%nat.

Fixpoint dashed (s : string) : string :=
  match s with
  | EmptyString => EmptyString
  | String c s' =>
      if is_upper c
      then String "-" (String (ascii_of_nat (nat_of_ascii c + 32)) (dashed s'))
      else String c (dashed s')
  end.

(** The modifier class of a tune on the image holder. *)
Definition modifier (this : SimpleImage) (n : TuneName) : string :=
  css_imageHolder (CSS this) +:+ "--" +:+ dashed (tune_name n).

(** [_acceptTuneView] (index.d.ts:785-799). *)
Definition _acceptTuneView (this : SimpleImage) : SimpleImage :=
  foldl
    (fun this t =>
       let this :=
         match nodes_imageHolder (nodes this) with
         | Some holder =>
             with_dom (classList_toggle holder (modifier this (tune t))
                         (to_boolean (get_flag (tune t) (data this)))
                         (dom this)) this
         | None => this
         end in
       if String.eqb (tune_name (tune t)) "stretched"
       then call (StretchBlock (blockIndex this)
                    (to_boolean (stretched (data this)))) this
       else this)
    this (tunes this).

(** [_toggleTune] (index.d.ts:775-778). *)
Definition _toggleTune (n : TuneName) (this : SimpleImage) : SimpleImage :=
  let this :=
    with_data (set_flag n (negb (to_boolean (get_flag n (data this)))) (data this))
      this in
  _acceptTuneView this.

(** The second argument of [_make]: an array of class names, one class name,
    or nothing. *)
Inductive ClassNames :=
| ClassArray (l : list string)
| ClassName (c : string)
| NoClassNames.

(** The properties [render] passes to [_make] as attributes. *)
Inductive Attribute :=
| AttrContentEditable (v : bool)
| AttrInnerHTML (v : string).

Definition set_attribute (a : Attribute) : Properties -> Properties :=
  match a with
  | AttrContentEditable v => set_contentEditable v
  | AttrInnerHTML v => set_innerHTML v
  end.

(** [_make] (index.d.ts:750-767). *)
Definition _make (tagName : string) (classNames : ClassNames)
    (attributes : list Attribute) (d : Dom) : nat * Dom :=
  let '(el, d) := createElement tagName d in
  let d :=
    match classNames with
    | ClassArray l => classList_add el l d
    | ClassName c => if truthy c then classList_add el [c] d else d
    | NoClassNames => d
    end in
  (el, foldl (fun d a => alter (with_props (set_attribute a)) el d) d attributes).

(** [render] (index.d.ts:507-551): the new state and the returned wrapper. *)
Definition render (this : SimpleImage) : nat * SimpleImage :=
  let d := dom this in
  let '(wrapper, d) :=
    _make "div" (ClassArray [css_baseClass (CSS this); css_wrapper (CSS this)]) [] d in
  let '(loader, d) := _make "div" (ClassName (css_loading (CSS this))) [] d in
  let '(imageHolder, d) := _make "div" (ClassName (css_imageHolder (CSS this))) [] d in
  let '(image, d) := _make "img" NoClassNames [] d in
  let '(cap, d) :=
    _make "div" (ClassArray [css_input (CSS this); css_caption (CSS this)])
      [AttrContentEditable (negb (readOnly this));
       AttrInnerHTML (or_empty (caption (data this)))] d in
  let d := alter (with_props (set_placeholder "Enter a caption")) cap d in
  let d := appendChild wrapper loader d in
  let d :=
    match url (data this) with
    | Some u => if truthy u then alter (with_props (set_src u)) image d else d
    | None => d
    end in
  let d :=
    alter (with_handlers
             (Some {| h_wrapper := wrapper; h_loader := loader;
                      h_imageHolder := imageHolder; h_image := image;
                      h_caption := cap |}) true) image d in
  let this :=
    with_nodes {| nodes_wrapper := Some wrapper;
                  nodes_imageHolder := Some imageHolder;
                  nodes_image := Some image;
                  nodes_caption := Some cap |}
      (with_dom d this) in
  (wrapper, this).

(** The body of the [onload] closure. *)
Definition run_onload (h : LoadHandler) (this : SimpleImage) : SimpleImage :=
  let d := dom this in
  let d := classList_remove (h_wrapper h) (css_loading (CSS this)) d in
  let d := appendChild (h_imageHolder h) (h_image h) d in
  let d := appendChild (h_wrapper h) (h_imageHolder h) d in
  let d := appendChild (h_wrapper h) (h_caption h) d in
  let d := remove_node (h_loader h) d in
  _acceptTuneView (with_dom d this).

(** The browser fires [load] on an element: its handler runs, if it has one. *)
Definition image_load (image : nat) (this : SimpleImage) : SimpleImage :=
  match dom this !! image with
  | Some e =>
      match onload e with
      | Some h => run_onload h this
      | None => this
      end
  | None => this
  end.

(** The browser fires [error] on an element. *)
Definition image_error (image : nat) (this : SimpleImage) : SimpleImage :=
  match dom this !! image with
  | Some e =>
      if onerror e then call (ConsoleLog "Failed to load an image") this
      else this
  | None => this
  end.

(** [save] (index.d.ts:558-573): the returned record and the new state.
    [Object.assign(this.data, ...)] writes into the stored object and returns
    that same object. *)
Definition save (blockContent : Element) (this : SimpleImage)
  : SimpleImageData * SimpleImage :=
  let image := querySelector (ByTag "img") blockContent in
  let cap := querySelector (ByClass (css_input (CSS this))) blockContent in
  match image with
  | None => (data this, this)
  | Some image =>
      let imageUrl :=
        if truthy (src (props_of image))
        then decodeHTMLEntities (src (props_of image))
        else "" in
      let stored :=
        assign (data this)
          {| url := Some imageUrl;
             caption :=
               Some (match cap with
                     | Some c => or_empty (Some (innerHTML (props_of c)))
                     | None => ""
                     end);
             withBorder := None; withBackground := None; stretched := None |} in
      (stored, with_data stored this)
  end.

(** [onDropHandler] (index.d.ts:606-622). The promise is given by what it
    resolves to once the reader has loaded the file; it stays pending, [None],
    when the result is not a string. *)
Definition onDropHandler (file : File) (result : ReaderResult)
  : option SimpleImageData :=
  match result with
  | ResultString s =>
      Some {| url := Some s; caption := Some (name file);
              withBorder := None; withBackground := None; stretched := None |}
  | ResultOther => None
  end.

(** [onPaste] (index.d.ts:629-660). For a file the handler only starts the
    read; the assignment happens in [file_loaded]. *)
Definition onPaste (event : PasteEvent) (this : SimpleImage) : SimpleImage :=
  match event with
  | TagPaste img =>
      if is_HTMLImageElement img then
        set_data {| url := Some (decodeHTMLEntities (src (props_of img)));
                    caption := None; withBorder := None;
                    withBackground := None; stretched := None |} this
      else this
  | PatternPaste _ text =>
      set_data {| url := Some (decodeHTMLEntities text);
                  caption := None; withBorder := None;
                  withBackground := None; stretched := None |} this
  | FilePaste file => with_reading (reading this ++ [file]) this
  | OtherPaste _ => this
  end.

(** The reader of the [i]-th pending file fires [load]: the promise of
    [onDropHandler] settles and the callback [(data) => this.data = data]
    of [onPaste] runs. *)
Definition file_loaded (i : nat) (result : ReaderResult) (this : SimpleImage)
  : SimpleImage :=
  match reading this !! i with
  | Some file =>
      match onDropHandler file result with
      | Some data0 => set_data data0 (with_reading (delete i (reading this)) this)
      | None => this
      end
  | None => this
  end.

(** What can happen to a rendered tool. *)
Inductive Event :=
| EvRender
| EvSave (blockContent : Element)
| EvPaste (event : PasteEvent)
| EvFileLoaded (i : nat) (result : ReaderResult)
| EvSetData (data0 : SimpleImageData)
| EvToggleTune (n : TuneName)
| EvImageLoad (image : nat)
| EvImageError (image : nat).

Definition step (ev : Event) (this : SimpleImage) : SimpleImage :=
  match ev with
  | EvRender => snd (render this)
  | EvSave blockContent => snd (save blockContent this)
  | EvPaste event => onPaste event this
  | EvFileLoaded i result => file_loaded i result this
  | EvSetData data0 => set_data data0 this
  | EvToggleTune n => _toggleTune n this
  | EvImageLoad image => image_load image this
  | EvImageError image => image_error image this
  end.

Definition run (evs : list Event) (this : SimpleImage) : SimpleImage :=
  foldl (fun this ev => step ev this) this evs.

Definition is_load (ev : Event) : bool :=
  match ev with
  | EvImageLoad _ => true
  | _ => false
  end.

(** An entry of the settings menu. The icon, an SVG text imported from a
    package, is left out. *)
Record TuneSetting := {
  setting_name : string;
  setting_label : string;
  toggle : bool;
  onActivate : SimpleImage -> SimpleImage;
  isActive : bool;
}.

(** [renderSettings] (index.d.ts:731-739); [t] is [this.api.i18n.t]. The
    closure [onActivate] acts on the state of the tool at the time it is
    called. *)
Definition renderSettings (t : string -> string) (this : SimpleImage)
  : list TuneSetting :=
  map (fun tune0 =>
         {| setting_name := tune_name (tune tune0);
            setting_label := t (label tune0);
            toggle := true;
            onActivate := _toggleTune (tune tune0);
            isActive := to_boolean (get_flag (tune tune0) (data this)) |})
    (tunes this).

(* --------------------------------------------------------------------- *)
(** ** Regular expressions and the paste configuration                     *)
(* --------------------------------------------------------------------- *)

(** The code units that [\s] matches, among those below 256. *)
Definition is_space (c : ascii) : bool :=
  let n := nat_of_ascii c in
  ((9 <=? n) && (n <=? 13) || (n =? 32) || (n =? 160))%nat.

(** Canonicalization under the [i] flag; the letters of the patterns of this
    tool are ASCII, for which it is the upper case. *)
Definition canonicalize (c : ascii) : ascii :=
  let n := nat_of_ascii c in
  if ((97 <=? n) && (n <=? 122))%nat then ascii_of_nat (n - 32) else c.

Inductive CharSet :=
| Literal (c : ascii)
| NonSpace.

Definition in_set (ignoreCase : bool) (cs : CharSet) (c : ascii) : bool :=
  match cs with
  | Literal a =>
      if ignoreCase then Ascii.eqb (canonicalize a) (canonicalize c)
      else Ascii.eqb a c
  | NonSpace => negb (is_space c)
  end.

(** The syntax that the pattern of [pasteConfig] needs: characters and
    character classes, sequence, alternative, the greedy quantifiers [?] and
    [+] (the latter on one character), and the assertion [$]. *)
Inductive Pattern :=
| Empty
| Chars (cs : CharSet)
| Seq (a b : Pattern)
| Alt (a b : Pattern)
| Opt (a : Pattern)
| Plus (cs : CharSet)
| EndOfInput.

Fixpoint text (s : string) : Pattern :=
  match s with
  | EmptyString => Empty
  | String c s' => Seq (Chars (Literal c)) (text s')
  end.

Record RegExp := {
  source : Pattern;
  ignoreCase : bool;
}.

(** [cs+] at the start of [s]: what is left after each possible run, the
    longest run first. *)
Fixpoint plus_runs (ignoreCase : bool) (cs : CharSet) (s : string) : list string :=
  match s with
  | EmptyString => []
  | String c s' =>
      if in_set ignoreCase cs c then plus_runs ignoreCase cs s' ++ [s'] else []
  end.

(** The backtracking matcher: what is left of [s] after each way in which
    the pattern matches at the start of [s], in the order in which a
    JavaScript engine tries them. *)
Fixpoint matcher (ignoreCase : bool) (p : Pattern) (s : string) : list string :=
  match p with
  | Empty => [s]
  | Chars cs =>
      match s with
      | EmptyString => []
      | String c s' => if in_set ignoreCase cs c then [s'] else []
      end
  | Seq a b => matcher ignoreCase a s ≫= matcher ignoreCase b
  | Alt a b => matcher ignoreCase a s ++ matcher ignoreCase b s
  | Opt a => matcher ignoreCase a s ++ [s]
  | Plus cs => plus_runs ignoreCase cs s
  | EndOfInput =>
      match s with
      | EmptyString => [s]
      | String _ _ => []
      end
  end.

(** [re.exec(s)] for a pattern without the [g] and [y] flags: the first
    index at which the pattern matches, with what follows the match. *)
Fixpoint exec (re : RegExp) (s : string) : option (nat * string) :=
  match matcher (ignoreCase re) (source re) s with
  | rest :: _ => Some (0, rest)
  | [] =>
      match s with
      | EmptyString => None
      | String _ s' =>
          match exec re s' with
          | Some (i, rest) => Some (S i, rest)
          | None => None
          end
      end
  end.

(** [re.test(s)]. *)
Definition test (re : RegExp) (s : string) : bool :=
  match exec re s with
  | Some _ => true
  | None => false
  end.

Record PasteConfig := {
  patterns_image : RegExp;
  tags : list (string * list (string * bool));
  files_mimeTypes : list string;
}.

(** [pasteConfig] (index.d.ts:715-729); the pattern is
    [/https?:\/\/\S+\.(gif|jpe?g|tiff|png|webp)$/i]. *)
Definition pasteConfig : PasteConfig :=
  {| patterns_image :=
       {| source :=
            Seq (text "http")
              (Seq (Opt (text "s"))
                 (Seq (text "://")
                    (Seq (Plus NonSpace)
                       (Seq (text ".")
                          (Seq (Alt (text "gif")
                                  (Alt (Seq (text "jp") (Seq (Opt (text "e")) (text "g")))
                                     (Alt (text "tiff")
                                        (Alt (text "png") (text "webp")))))
                             EndOfInput)))));
          ignoreCase := true |};
     tags := [("img", [("src", true)])];
     files_mimeTypes := ["image/*"] |}.

(* ===================================================================== *)
(** * Part II. Vocabulary of the statements                                *)
(* ===================================================================== *)

(** [String.prototype.includes] for a literal pattern. *)
Fixpoint includes (s pat : string) : bool :=
  match startsWith pat s with
  | Some _ => true
  | None =>
      match s with
      | EmptyString => false
      | String _ s' => includes s' pat
      end
  end.

(** Membership of a character in a string. *)
Fixpoint has_char (c : ascii) (s : string) : bool :=
  match s with
  | EmptyString => false
  | String a s' => Ascii.eqb c a || has_char c s'
  end.

(** The scan of a global replace, as a relation: leftmost matches, never
    overlapping, everything else copied. *)
Inductive Replaced (pat rep : string) : string -> string -> Prop :=
| Replaced_end : Replaced pat rep "" ""
| Replaced_match s rest out :
    startsWith pat s = Some rest ->
    Replaced pat rep rest out ->
    Replaced pat rep s (rep +:+ out)
| Replaced_copy c s out :
    startsWith pat (String c s) = None ->
    Replaced pat rep s out ->
    Replaced pat rep (String c s) (String c out).

(** The five substitutions, applied one after the other in the order of the
    source, each one a complete left-to-right scan. *)
Definition substituted_in_order (s out : string) : Prop :=
  exists s1 s2 s3 s4,
    Replaced "&amp;" "&" s s1 /\
    Replaced "&lt;" "<" s1 s2 /\
    Replaced "&gt;" ">" s2 s3 /\
    Replaced "&quot;" quot s3 s4 /\
    Replaced "&#039;" apos s4 out.

Definition decode_chain (s : string) : string :=
  replace "&#039;" apos
    (replace "&quot;" quot
       (replace "&gt;" ">" (replace "&lt;" "<" (replace "&amp;" "&" s)))).

(** The descendants of an element in document order. *)
Fixpoint descendants (e : Element) : list Element :=
  (fix all (l : list Element) : list Element :=
     match l with
     | [] => []
     | c :: l' => c :: descendants c ++ all l'
     end) (childNodes_of e).

Definition first_image (blockContent : Element) : option Element :=
  List.find (fun d => String.eqb (localName (props_of d)) "img")
    (descendants blockContent).

Definition first_of_class (c : string) (blockContent : Element) : option Element :=
  List.find (fun d => bool_decide (c ∈ classList (props_of d)))
    (descendants blockContent).

Definition example_api : API :=
  {| styles_block := "cdx-block"; styles_loader := "cdx-loader";
     styles_input := "cdx-input"; getCurrentBlockIndex := 0 |}.

Definition example_tool : SimpleImage :=
  constructor
    {| url := Some "https://h/old.png"; caption := Some "old";
       withBorder := Some true; withBackground := None; stretched := None |}
    example_api false.

Definition plain (tag : string) (classes : list string) (source html : string)
  : Properties :=
  {| localName := tag; classList := classes; src := source; innerHTML := html;
     contentEditable := None; placeholder := None |}.

Definition example_content : Element :=
  El (plain "div" ["cdx-block"; "cdx-simple-image"] "" "")
    [ El (plain "div" ["cdx-simple-image__picture"] "" "")
        [ El (plain "img" [] "https://h/new.png?a=1&amp;b=2" "") [] ];
      El (plain "div" ["cdx-input"; "cdx-simple-image__caption"] "" "A <b>cat</b>") [] ].

(** The record that a paste of a tag or of a pattern hands to the setter. *)
Definition only_url (u : string) : SimpleImageData :=
  {| url := Some u; caption := None; withBorder := None;
     withBackground := None; stretched := None |}.

Definition example_file : File := {| name := "cat.png" |}.

Definition example_data_url : string := "data:image/png;base64,iVBORw0KGgo=".

Definition example_img : Element :=
  El (plain "img" [] "https://h/a.png?x=1&amp;amp;y" "") [].

(** The tunes that the constructor installs. *)
Definition image_tunes : list Tune :=
  [ {| tune := TuneWithBorder; label := "Add Border" |};
    {| tune := TuneStretched; label := "Stretch Image" |};
    {| tune := TuneWithBackground; label := "Add Background" |} ].

(** The classes of an element of the tool. *)
Definition classes_of (n : nat) (this : SimpleImage) : option (list string) :=
  (fun e => classList (props e)) <$> dom this !! n.

Definition rendered_tool : SimpleImage := snd (render example_tool).

(** What the events other than [load] leave untouched in an element: its
    children and its handlers. *)
Abbreviation Skeleton := (list nat * option LoadHandler * bool)%type.

Definition skeleton (e : HTMLElement) : Skeleton :=
  (children e, onload e, onerror e).

Definition sk_remove (c : nat) (s : Skeleton) : Skeleton :=
  (filter (fun x => x ≠ c) s.1.1, s.1.2, s.2).

Definition sk_append (c : nat) (s : Skeleton) : Skeleton :=
  (s.1.1 ++ [c], s.1.2, s.2).

Definition sk_handlers (l : option LoadHandler) (r : bool) (s : Skeleton) : Skeleton :=
  (s.1.1, l, r).

(** Every child is an element of the store. *)
Definition closed_skeletons (sk : list Skeleton) : Prop :=
  Forall (fun s => Forall (fun c => c < List.length sk)%nat s.1.1) sk.

Definition closed (d : Dom) : Prop := closed_skeletons (skeleton <$> d).

Definition children_of (n : nat) (this : SimpleImage) : option (list nat) :=
  children <$> dom this !! n.

Definition no_load (evs : list Event) : bool :=
  forallb (fun ev => negb (is_load ev)) evs.

(** The skeletons of the five elements that [render] creates, for a store
    that had [n] elements. *)
Definition rendered_skeletons (n : nat) : list Skeleton :=
  [ ([S n], None, false);
    ([], None, false);
    ([], None, false);
    ([], Some {| h_wrapper := n; h_loader := n + 1; h_imageHolder := n + 2;
                 h_image := n + 3; h_caption := n + 4 |}, true);
    ([], None, false) ].

(** Evaluates the removals and additions on a list of children whose
    members are known. *)
Ltac simplify_children :=
  repeat first
    [ rewrite filter_nil
    | rewrite filter_cons_True by lia
    | rewrite filter_cons_False by lia
    | progress cbn [app fmap option_fmap option_map fst snd] ].

Definition example_events : list Event :=
  [ EvPaste (PatternPaste "image" "https://h/b.png");
    EvToggleTune TuneWithBorder;
    EvImageError 3;
    EvSave example_content;
    EvRender;
    EvPaste (FilePaste example_file);
    EvFileLoaded 0 (ResultString example_data_url) ].

Fixpoint upper_case (s : string) : string :=
  match s with
  | EmptyString => EmptyString
  | String c s' => String (canonicalize c) (upper_case s')
  end.

Fixpoint forall_chars (p : ascii -> bool) (s : string) : bool :=
  match s with
  | EmptyString => true
  | String c s' => p c && forall_chars p s'
  end.

(** The texts that a pattern without [$] matches. *)
Fixpoint lang (ic : bool) (p : Pattern) (m : string) : Prop :=
  match p with
  | Empty => m = ""
  | Chars cs => exists c, m = String c "" /\ in_set ic cs c = true
  | Seq a b => exists m1 m2, m = m1 +:+ m2 /\ lang ic a m1 /\ lang ic b m2
  | Alt a b => lang ic a m \/ lang ic b m
  | Opt a => lang ic a m \/ m = ""
  | Plus cs => m <> "" /\ forall_chars (in_set ic cs) m = true
  | EndOfInput => False
  end.

Fixpoint end_free (p : Pattern) : bool :=
  match p with
  | Empty | Chars _ | Plus _ => true
  | Seq a b | Alt a b => end_free a && end_free b
  | Opt a => end_free a
  | EndOfInput => false
  end.

(** An image URL as the paste pattern understands it: the scheme http or
    https in any case, [://], at least one character and none of them white
    space, a dot, and one of the six extensions in any case. *)
Definition is_image_url (u : string) : Prop :=
  exists scheme rest ext,
    u = scheme +:+ "://" +:+ rest +:+ "." +:+ ext /\
    (upper_case scheme = "HTTP" \/ upper_case scheme = "HTTPS") /\
    rest <> "" /\
    forall_chars (fun c => negb (is_space c)) rest = true /\
    upper_case ext ∈ ["GIF"; "JPG"; "JPEG"; "TIFF"; "PNG"; "WEBP"].

Definition image_pattern : RegExp := patterns_image pasteConfig.

(** The states that a host can bring a tool into. *)
Inductive reachable : SimpleImage -> Prop :=
| reachable_new data0 api0 readOnly0 :
    reachable (constructor data0 api0 readOnly0)
| reachable_step ev this :
    reachable this -> reachable (step ev this).

Definition handler_in (n : nat) (h : LoadHandler) : Prop :=
  (h_wrapper h < n /\ h_loader h < n /\ h_imageHolder h < n /\
   h_image h < n /\ h_caption h < n)%nat.

(** The children of an element and the nodes its load handler captured are
    among the first [n] elements. *)
Definition sound_skeleton (n : nat) (s : Skeleton) : Prop :=
  Forall (fun c => c < n)%nat s.1.1 /\
  (forall h, s.1.2 = Some h -> handler_in n h).

Definition well_formed (d : Dom) : Prop :=
  Forall (sound_skeleton (List.length d)) (skeleton <$> d).

(** The five entities that [decodeHTMLEntities] knows. *)
Definition entities : list string :=
  ["&amp;"; "&lt;"; "&gt;"; "&quot;"; "&#039;"].

Definition entity_free (s : string) : bool :=
  forallb (fun e => negb (includes s e)) entities.



(** The body of the loop of [_acceptTuneView], for one tune. *)
Definition accept_tune (this : SimpleImage) (t : Tune) : SimpleImage :=
  let this :=
    match nodes_imageHolder (nodes this) with
    | Some holder =>
        with_dom (classList_toggle holder (modifier this (tune t))
                    (to_boolean (get_flag (tune t) (data this)))
                    (dom this)) this
    | None => this
    end in
  if String.eqb (tune_name (tune t)) "stretched"
  then call (StretchBlock (blockIndex this)
               (to_boolean (stretched (data this)))) this
  else this.

(** What a method leaves as it is when it acts on the elements and on the
    host only. *)
Definition same_object (this that : SimpleImage) : Prop :=
  data that = data this /\ nodes that = nodes this /\ CSS that = CSS this /\
  blockIndex that = blockIndex this /\ api that = api this /\
  readOnly that = readOnly this /\ reading that = reading this /\
  tunes that = tunes this.

(** The class list of a new element to which the class names [l] were added
    in this order. *)
Definition tokens (l : list string) : list string :=
  foldl (fun l c => token_add c l) [] l.

(** What [document.createElement] returns. *)
Definition new_element (tagName : string) : HTMLElement :=
  {| props := {| localName := tagName; classList := []; src := "";
                 innerHTML := ""; contentEditable := None;
                 placeholder := None |};
     children := []; onload := None; onerror := false |}.

(** The class names that [_make] adds. *)
Definition class_names (classNames : ClassNames) : list string :=
  match classNames with
  | ClassArray l => l
  | ClassName c => if truthy c then [c] else []
  | NoClassNames => []
  end.

(** The properties of the five elements that [render] creates. *)
Definition rendered_props (this : SimpleImage) : list Properties :=
  [ {| localName := "div";
       classList := tokens [css_baseClass (CSS this); css_wrapper (CSS this)];
       src := ""; innerHTML := ""; contentEditable := None;
       placeholder := None |};
    {| localName := "div";
       classList := tokens (class_names (ClassName (css_loading (CSS this))));
       src := ""; innerHTML := ""; contentEditable := None;
       placeholder := None |};
    {| localName := "div";
       classList := tokens (class_names (ClassName (css_imageHolder (CSS this))));
       src := ""; innerHTML := ""; contentEditable := None;
       placeholder := None |};
    {| localName := "img"; classList := [];
       src := or_empty (url (data this));
       innerHTML := ""; contentEditable := None; placeholder := None |};
    {| localName := "div";
       classList := tokens [css_input (CSS this); css_caption (CSS this)];
       src := ""; innerHTML := or_empty (caption (data this));
       contentEditable := Some (negb (readOnly this));
       placeholder := Some "Enter a caption" |} ].

(** A stored record as the tool keeps it: the five properties are defined
    and the url holds none of the four entities that have no ampersand as
    their decoding. *)
Definition data_ok (d : SimpleImageData) : Prop :=
  (exists u, url d = Some u /\
             includes u "&lt;" = false /\ includes u "&gt;" = false /\
             includes u "&quot;" = false /\ includes u "&#039;" = false) /\
  is_Some (caption d) /\ is_Some (withBorder d) /\
  is_Some (withBackground d) /\ is_Some (stretched d).


(** The nodes that the tool remembers: none before [render], and afterwards
    four elements of one call of [render]. *)
Definition nodes_ok (this : SimpleImage) : Prop :=
  nodes this = {| nodes_wrapper := None; nodes_imageHolder := None;
                  nodes_image := None; nodes_caption := None |} \/
  exists n : nat,
    (n + 5 <= List.length (dom this))%nat /\
    nodes this = {| nodes_wrapper := Some n;
                    nodes_imageHolder := Some (n + 2)%nat;
                    nodes_image := Some (n + 3)%nat;
                    nodes_caption := Some (n + 4)%nat |}.

(** The events that add elements or move them. *)
Definition changes_tree (ev : Event) : bool :=
  match ev with
  | EvRender | EvImageLoad _ => true
  | _ => false
  end.

(** The load handler that [render] installs when the store has [n]
    elements. *)
Definition rendered_handler (n : nat) : LoadHandler :=
  {| h_wrapper := n; h_loader := n + 1; h_imageHolder := n + 2;
     h_image := n + 3; h_caption := n + 4 |}.

(* ===================================================================== *)
(** * Part III. Theorems                                                   *)
(* ===================================================================== *)

(* --------------------------------------------------------------------- *)
(** ** The definitions on sample inputs                                    *)
(* --------------------------------------------------------------------- *)

Example decode_ex1 :
  decodeHTMLEntities "a.png?x=1&amp;y=&lt;2&gt;&quot;&#039;" =
  "a.png?x=1&y=<2>" +:+ quot +:+ apos.
Proof. vm_compute. reflexivity. Qed.

Example decode_ex2 : decodeHTMLEntities "&amp;amp;" = "&amp;".
Proof. vm_compute. reflexivity. Qed.

Example decode_ex3 : decodeHTMLEntities "&amp;lt;" = "<".
Proof. vm_compute. reflexivity. Qed.

Example paste_ex1 :
  test (patterns_image pasteConfig) "https://example.com/a/b.c.JPEG" = true.
Proof. vm_compute. reflexivity. Qed.

Example paste_ex2 :
  test (patterns_image pasteConfig) "https://example.com/a.png?x" = false.
Proof. vm_compute. reflexivity. Qed.

Example paste_ex3 :
  exec (patterns_image pasteConfig) "see HTTP://h/a.gif" = Some (4, "").
Proof. vm_compute. reflexivity. Qed.

Example paste_ex4 :
  test (patterns_image pasteConfig) "http://a b.png" = false.
Proof. vm_compute. reflexivity. Qed.


(* --------------------------------------------------------------------- *)
(** ** Strings: one-position matching                                      *)
(* --------------------------------------------------------------------- *)

Lemma startsWith_app pat s rest :
  startsWith pat s = Some rest <-> s = pat +:+ rest.
Proof.
  revert s; induction pat as [|p pat IH]; intros s; simpl.
  - split; intros; simpl in *; congruence.
  - destruct s as [|c s].
    + split; discriminate.
    + destruct (Ascii.eqb_spec p c) as [->|Hne].
      * rewrite IH. split; congruence.
      * split; [discriminate|]. intros [=]. congruence.
Qed.

Lemma includes_tail c s pat :
  includes (String c s) pat = false -> includes s pat = false.
Proof. simpl. destruct (startsWith pat (String c s)); [discriminate|auto]. Qed.

Lemma includes_head s pat :
  includes s pat = false -> startsWith pat s = None.
Proof.
  destruct s; simpl; destruct (startsWith pat _); congruence.
Qed.

Lemma includes_cons c s pat :
  startsWith pat (String c s) = None ->
  includes (String c s) pat = includes s pat.
Proof. intros H; simpl in *. now rewrite H. Qed.

Lemma includes_app_r pre s pat :
  includes (pre +:+ s) pat = false -> includes s pat = false.
Proof.
  induction pre as [|c pre IH]; simpl; [auto|].
  destruct (startsWith pat (String c (pre +:+ s))); [discriminate|auto].
Qed.

Lemma includes_spec s pat :
  includes s pat = true <-> exists pre post, s = pre +:+ pat +:+ post.
Proof.
  split.
  - induction s as [|c s IH]; simpl.
    + destruct (startsWith pat "") eqn:E; [|discriminate].
      apply startsWith_app in E. intros _. exists "", s. exact E.
    + destruct (startsWith pat (String c s)) eqn:E.
      * apply startsWith_app in E. intros _. exists "", s0. exact E.
      * intros H. destruct (IH H) as (pre & post & ->).
        exists (String c pre), post. reflexivity.
  - intros (pre & post & ->).
    destruct (includes (pre +:+ pat +:+ post) pat) eqn:E; [reflexivity|].
    apply includes_app_r, includes_head in E.
    assert (startsWith pat (pat +:+ post) = Some post) by now apply startsWith_app.
    congruence.
Qed.

(* --------------------------------------------------------------------- *)
(** ** Strings: global replacement                                         *)
(* --------------------------------------------------------------------- *)

(** The two steps of the scan. *)
Lemma replace_match pat rep s rest :
  truthy pat = true ->
  startsWith pat s = Some rest ->
  replace pat rep s = rep +:+ replace pat rep rest.
Proof.
  funelim (replace pat rep s); intros Hp Hs; try discriminate.
  - congruence.
  - congruence.
Qed.

Lemma replace_copy pat rep c s :
  truthy pat = true ->
  startsWith pat (String c s) = None ->
  replace pat rep (String c s) = String c (replace pat rep s).
Proof.
  funelim (replace pat rep (String c s)); intros Hp Hs; try discriminate.
  - congruence.
  - congruence.
Qed.

Lemma replace_empty pat rep :
  truthy pat = true -> replace pat rep "" = "".
Proof. destruct pat; [discriminate|]. intros _. now simp replace. Qed.

Lemma replace_Replaced pat rep s :
  truthy pat = true -> Replaced pat rep s (replace pat rep s).
Proof.
  funelim (replace pat rep s); intros Hp; try discriminate.
  - constructor.
  - eapply Replaced_match; eauto.
  - apply Replaced_copy; auto.
Qed.

Lemma Replaced_fun pat rep s out :
  truthy pat = true -> Replaced pat rep s out -> out = replace pat rep s.
Proof.
  intros Hp.
  induction 1 as [|s rest out Hs _ IH|c s out Hs _ IH].
  - now rewrite replace_empty.
  - rewrite (replace_match _ _ _ _ Hp Hs). now rewrite IH.
  - rewrite (replace_copy _ _ _ _ Hp Hs). now rewrite IH.
Qed.

Lemma includes_app_l pre s pat :
  includes s pat = true -> includes (pre +:+ s) pat = true.
Proof.
  intros H. destruct (includes (pre +:+ s) pat) eqn:E; [reflexivity|].
  apply includes_app_r in E. congruence.
Qed.

Lemma includes_empty pat : truthy pat = true -> includes "" pat = false.
Proof. destruct pat; [discriminate|reflexivity]. Qed.

Lemma startsWith_not_first r q s :
  truthy q = true -> has_char r q = false -> startsWith q (String r s) = None.
Proof.
  destruct q as [|a q]; [discriminate|]. simpl. intros _ H.
  apply orb_false_iff in H as [H _].
  rewrite Ascii.eqb_sym, H. reflexivity.
Qed.

Lemma replace_absent pat rep s :
  truthy pat = true -> includes s pat = false -> replace pat rep s = s.
Proof.
  intros Hp. induction s as [|c s IH]; intros H.
  - now apply replace_empty.
  - rewrite replace_copy; auto using includes_head.
    rewrite IH; eauto using includes_tail.
Qed.

Section SingleCharacter.
(** Every replacement text of [decodeHTMLEntities] is one character. *)
Variables (pat : string) (r : ascii).
Hypothesis pat_nonempty : truthy pat = true.

Let rep := String r "".

(** A text that starts the output and avoids [r] starts the input. *)
Lemma Replaced_startsWith s out :
  Replaced pat rep s out ->
  forall q, has_char r q = false ->
  startsWith q out <> None -> startsWith q s <> None.
Proof.
  induction 1 as [|s rest out Hs _ IH|c s out Hs _ IH]; intros q Hq.
  - auto.
  - destruct q as [|a q]; [simpl; congruence|].
    subst rep. simpl. apply orb_false_iff in Hq as [Hq _].
    rewrite Ascii.eqb_sym, Hq. congruence.
  - destruct q as [|a q]; [simpl; congruence|].
    simpl in *. apply orb_false_iff in Hq as [_ Hq].
    destruct (Ascii.eqb a c); [|congruence]. now apply IH.
Qed.

(** An occurrence in the output of a text that avoids [r] is an occurrence
    in the input: a replace creates nothing but [r]. *)
Lemma Replaced_includes s out :
  Replaced pat rep s out ->
  forall q, truthy q = true -> has_char r q = false ->
  includes out q = true -> includes s q = true.
Proof.
  induction 1 as [|s rest out Hs H IH|c s out Hs H IH]; intros q Hq Hr.
  - now rewrite includes_empty.
  - subst rep. cbn [String.append]. rewrite includes_cons
      by now apply startsWith_not_first.
    intros Ho. apply startsWith_app in Hs as ->.
    apply includes_app_l. now apply IH.
  - intros Ho. simpl in Ho.
    destruct (startsWith q (String c out)) eqn:E.
    + assert (Hin : startsWith q (String c s) <> None).
      { apply (Replaced_startsWith _ (String c out)); [|assumption|congruence].
        now apply Replaced_copy. }
      simpl. destruct (startsWith q (String c s)); [reflexivity|congruence].
    + simpl. destruct (startsWith q (String c s)); [reflexivity|].
      now apply IH.
Qed.

(** No occurrence of the pattern survives when [r] is not part of it. *)
Lemma Replaced_removes s out :
  Replaced pat rep s out ->
  has_char r pat = false -> includes out pat = false.
Proof.
  induction 1 as [|s rest out Hs H IH|c s out Hs H IH]; intros Hr.
  - now apply includes_empty.
  - subst rep. cbn [String.append]. rewrite includes_cons
      by now apply startsWith_not_first.
    auto.
  - rewrite includes_cons; [auto|].
    destruct (startsWith pat (String c out)) eqn:E; [|reflexivity].
    exfalso. apply (Replaced_startsWith (String c s) (String c out)) with (q := pat);
      [now apply Replaced_copy|assumption|congruence|assumption].
Qed.

(** A replace never lengthens, and shortens when a longer pattern occurs. *)
Lemma Replaced_length s out :
  Replaced pat rep s out -> String.length out <= String.length s.
Proof.
  induction 1 as [|s rest out Hs H IH|c s out Hs H IH]; simpl; try lia.
  apply startsWith_length in Hs. destruct pat; [discriminate|].
  simpl in *. lia.
Qed.

Lemma Replaced_shorter s out :
  Replaced pat rep s out ->
  2 <= String.length pat -> includes s pat = true ->
  String.length out < String.length s.
Proof.
  induction 1 as [|s rest out Hs H IH|c s out Hs H IH]; intros Hl Hi.
  - rewrite includes_empty in Hi; [discriminate|assumption].
  - apply Replaced_length in H. apply startsWith_length in Hs.
    subst rep. simpl. lia.
  - rewrite includes_cons in Hi by assumption. simpl. apply IH in Hi; lia.
Qed.
End SingleCharacter.

(* --------------------------------------------------------------------- *)
(** ** decodeHTMLEntities                                                  *)
(* --------------------------------------------------------------------- *)

Lemma decode_is_chain s : decodeHTMLEntities s = decode_chain s.
Proof. destruct s; reflexivity. Qed.

Lemma substituted_in_order_chain s out :
  substituted_in_order s out <-> out = decode_chain s.
Proof.
  split.
  - intros (s1 & s2 & s3 & s4 & H1 & H2 & H3 & H4 & H5).
    apply Replaced_fun in H1, H2, H3, H4, H5; try reflexivity.
    unfold decode_chain. congruence.
  - intros ->. unfold decode_chain. do 4 eexists.
    repeat split; apply replace_Replaced; reflexivity.
Qed.

(** C2: for every string, [decodeHTMLEntities] yields exactly the result of
    the five global substitutions "&amp;" to "&", "&lt;" to "<", "&gt;" to
    ">", "&quot;" to the double quote and "&#039;" to the apostrophe, applied
    in this order; the falsy string, which is the empty one, is returned as it
    is. *)
Theorem C2_decodeHTMLEntities_substitutions :
  (forall s out, substituted_in_order s out <-> decodeHTMLEntities s = out) /\
  (forall s,
     decodeHTMLEntities s =
     replace "&#039;" apos
       (replace "&quot;" quot
          (replace "&gt;" ">" (replace "&lt;" "<" (replace "&amp;" "&" s))))) /\
  (forall s, truthy s = false -> decodeHTMLEntities s = s) /\
  decodeHTMLEntities "" = "".
Proof.
  split; [|split; [|split]].
  - intros s out. rewrite substituted_in_order_chain, decode_is_chain.
    split; congruence.
  - apply decode_is_chain.
  - intros [|c s]; [reflexivity|discriminate].
  - reflexivity.
Qed.

(** What a decoded text can still contain: none of the four entities whose
    replacement is not an ampersand. *)
Lemma decode_chain_clean s :
  includes (decode_chain s) "&lt;" = false /\
  includes (decode_chain s) "&gt;" = false /\
  includes (decode_chain s) "&quot;" = false /\
  includes (decode_chain s) "&#039;" = false.
Proof.
  unfold decode_chain.
  set (s1 := replace "&amp;" "&" s).
  pose proof (replace_Replaced "&lt;" "<" s1 eq_refl) as H2.
  set (s2 := replace "&lt;" "<" s1) in *.
  pose proof (replace_Replaced "&gt;" ">" s2 eq_refl) as H3.
  set (s3 := replace "&gt;" ">" s2) in *.
  pose proof (replace_Replaced "&quot;" quot s3 eq_refl) as H4.
  set (s4 := replace "&quot;" quot s3) in *.
  pose proof (replace_Replaced "&#039;" apos s4 eq_refl) as H5.
  set (s5 := replace "&#039;" apos s4) in *.
  assert (L2 : includes s2 "&lt;" = false)
    by (apply (Replaced_removes "&lt;" "<" eq_refl _ _ H2); reflexivity).
  assert (G3 : includes s3 "&gt;" = false)
    by (apply (Replaced_removes "&gt;" ">" eq_refl _ _ H3); reflexivity).
  assert (Q4 : includes s4 "&quot;" = false)
    by (apply (Replaced_removes "&quot;" "034" eq_refl _ _ H4); reflexivity).
  assert (A5 : includes s5 "&#039;" = false)
    by (apply (Replaced_removes "&#039;" "039" eq_refl _ _ H5); reflexivity).
  assert (keep : forall pat r a b q,
            Replaced pat (String r "") a b -> truthy pat = true ->
            truthy q = true -> has_char r q = false ->
            includes a q = false -> includes b q = false).
  { intros pat r a b q H Hp Hq Hr Ha.
    destruct (includes b q) eqn:E; [|reflexivity].
    rewrite (Replaced_includes pat r a b H q Hq Hr E) in Ha. discriminate. }
  assert (L3 : includes s3 "&lt;" = false) by (eapply keep; eauto; reflexivity).
  assert (L4 : includes s4 "&lt;" = false) by (eapply keep; eauto; reflexivity).
  assert (L5 : includes s5 "&lt;" = false) by (eapply keep; eauto; reflexivity).
  assert (G4 : includes s4 "&gt;" = false) by (eapply keep; eauto; reflexivity).
  assert (G5 : includes s5 "&gt;" = false) by (eapply keep; eauto; reflexivity).
  assert (Q5 : includes s5 "&quot;" = false) by (eapply keep; eauto; reflexivity).
  auto.
Qed.

(** The later substitutions neither create nor destroy "&amp;". *)
Lemma decode_chain_amp_absent s :
  includes s "&amp;" = false -> includes (decode_chain s) "&amp;" = false.
Proof.
  intros H. unfold decode_chain.
  rewrite (replace_absent "&amp;" "&" s eq_refl H).
  assert (keep : forall pat r a,
            truthy pat = true -> has_char r "&amp;" = false ->
            includes a "&amp;" = false ->
            includes (replace pat (String r "") a) "&amp;" = false).
  { intros pat r a Hp Hr Ha.
    destruct (includes (replace pat (String r "") a) "&amp;") eqn:E; [|reflexivity].
    rewrite (Replaced_includes pat r a _ (replace_Replaced _ _ _ Hp)
               "&amp;" eq_refl Hr E) in Ha. discriminate. }
  apply keep; [reflexivity..|].
  apply keep; [reflexivity..|].
  apply keep; [reflexivity..|].
  apply keep; [reflexivity..|]. assumption.
Qed.

Lemma decode_chain_fixed d :
  includes d "&amp;" = false ->
  includes d "&lt;" = false -> includes d "&gt;" = false ->
  includes d "&quot;" = false -> includes d "&#039;" = false ->
  decode_chain d = d.
Proof.
  intros A L G Q P. unfold decode_chain.
  rewrite (replace_absent "&amp;" _ d eq_refl A).
  rewrite (replace_absent "&lt;" _ d eq_refl L).
  rewrite (replace_absent "&gt;" _ d eq_refl G).
  rewrite (replace_absent "&quot;" _ d eq_refl Q).
  now rewrite (replace_absent "&#039;" _ d eq_refl P).
Qed.

Lemma decode_chain_shorter d :
  includes d "&amp;" = true ->
  String.length (decode_chain d) < String.length d.
Proof.
  intros A. unfold decode_chain.
  pose proof (Replaced_shorter "&amp;" "&" eq_refl d _
                (replace_Replaced "&amp;" "&" d eq_refl)
                ltac:(simpl; lia) A) as H1.
  set (s1 := replace "&amp;" "&" d) in *.
  pose proof (Replaced_length "&lt;" "<" eq_refl s1 _
                (replace_Replaced "&lt;" "<" s1 eq_refl)) as H2.
  set (s2 := replace "&lt;" "<" s1) in *.
  pose proof (Replaced_length "&gt;" ">" eq_refl s2 _
                (replace_Replaced "&gt;" ">" s2 eq_refl)) as H3.
  set (s3 := replace "&gt;" ">" s2) in *.
  pose proof (Replaced_length "&quot;" "034" eq_refl s3 _
                (replace_Replaced "&quot;" quot s3 eq_refl)) as H4.
  set (s4 := replace "&quot;" quot s3) in *.
  pose proof (Replaced_length "&#039;" "039" eq_refl s4 _
                (replace_Replaced "&#039;" apos s4 eq_refl)) as H5.
  lia.
Qed.

(** C9, as the code has it: decoding a decoded text changes nothing exactly
    when the decoded text holds no "&amp;"; this is the case for every input
    without "&amp;", and it is not the case for "&amp;amp;", whose decoding
    "&amp;" decodes further to "&". *)
Theorem C9_decode_twice s :
  (decodeHTMLEntities (decodeHTMLEntities s) = decodeHTMLEntities s <->
   includes (decodeHTMLEntities s) "&amp;" = false) /\
  (includes s "&amp;" = false ->
   decodeHTMLEntities (decodeHTMLEntities s) = decodeHTMLEntities s).
Proof.
  rewrite !decode_is_chain.
  destruct (decode_chain_clean s) as (L & G & Q & P).
  assert (Hfix : includes (decode_chain s) "&amp;" = false ->
                 decode_chain (decode_chain s) = decode_chain s)
    by (intros A; now apply decode_chain_fixed).
  split; [split|]; auto.
  - intros Heq. destruct (includes (decode_chain s) "&amp;") eqn:A; [|reflexivity].
    apply decode_chain_shorter in A. rewrite Heq in A. lia.
  - intros A. now apply Hfix, decode_chain_amp_absent.
Qed.

(** C9 fails as stated: a doubly encoded ampersand is decoded once per call. *)
Lemma C9_decode_not_idempotent :
  ~ (forall s, decodeHTMLEntities (decodeHTMLEntities s) = decodeHTMLEntities s).
Proof.
  intros H. specialize (H "&amp;amp;"). vm_compute in H. discriminate.
Qed.

Lemma C9_decode_twice_witness :
  includes "x.png?a=1&lt;2" "&amp;" = false /\
  decodeHTMLEntities (decodeHTMLEntities "x.png?a=1&lt;2") =
  decodeHTMLEntities "x.png?a=1&lt;2".
Proof.
  split; [reflexivity|].
  apply (proj2 (C9_decode_twice "x.png?a=1&lt;2")). reflexivity.
Defined.

(* --------------------------------------------------------------------- *)
(** ** The data setter and the constructor                                 *)
(* --------------------------------------------------------------------- *)

Lemma assign_no_properties d : assign no_properties d = d.
Proof. destruct d as [[?|] [?|] [?|] [?|] [?|]]; reflexivity. Qed.

Lemma decode_falsy u : truthy u = false -> decodeHTMLEntities u = u.
Proof. destruct u; [reflexivity|discriminate]. Qed.

(** The setter changes the stored record and nothing else of the object
    proper: the elements are the only other thing it writes. *)
Lemma set_data_data d this :
  data (set_data d this) =
  assign (data this)
    {| url := match url d with
              | Some u => Some (decodeHTMLEntities u)
              | None => None
              end;
       caption := caption d; withBorder := withBorder d;
       withBackground := withBackground d; stretched := stretched d |}.
Proof.
  unfold set_data.
  assert (E : (match url d with
               | Some u =>
                   if truthy u then
                     {| url := Some (decodeHTMLEntities u); caption := caption d;
                        withBorder := withBorder d;
                        withBackground := withBackground d;
                        stretched := stretched d |}
                   else d
               | None => d
               end) =
              {| url := match url d with
                        | Some u => Some (decodeHTMLEntities u)
                        | None => None
                        end;
                 caption := caption d; withBorder := withBorder d;
                 withBackground := withBackground d; stretched := stretched d |}).
  { destruct d as [[u|] c b g s]; simpl; [|reflexivity].
    destruct (truthy u) eqn:T; [reflexivity|]. now rewrite decode_falsy. }
  rewrite E. clear E. rewrite assign_no_properties.
  destruct this as [a r b dt cs [w h [i|] [c|]] tu dm rd cl]; reflexivity.
Qed.

Lemma set_data_frame d this :
  api (set_data d this) = api this /\
  readOnly (set_data d this) = readOnly this /\
  blockIndex (set_data d this) = blockIndex this /\
  CSS (set_data d this) = CSS this /\
  nodes (set_data d this) = nodes this /\
  tunes (set_data d this) = tunes this /\
  reading (set_data d this) = reading this /\
  calls (set_data d this) = calls this.
Proof.
  unfold set_data.
  destruct this as [a r b dt cs [w h [i|] [c|]] tu dm rd cl];
    repeat split; reflexivity.
Qed.

(** C5, as the code has it: the constructor stores the five fields with
    their defaults, the url after HTML-entity decoding: the stored url is
    [decodeHTMLEntities(data.url)] when [data.url] is truthy and the empty
    string otherwise, the caption is [data.caption] when truthy and the empty
    string otherwise, and each flag is the given value when defined and false
    when undefined. *)
Theorem C5_constructor_defaults data0 api0 readOnly0 :
  data (constructor data0 api0 readOnly0) =
  {| url := Some (match url data0 with
                  | Some u => if truthy u then decodeHTMLEntities u else ""
                  | None => ""
                  end);
     caption := Some (match caption data0 with
                      | Some c => if truthy c then c else ""
                      | None => ""
                      end);
     withBorder := Some (match withBorder data0 with
                         | Some b => b
                         | None => false
                         end);
     withBackground := Some (match withBackground data0 with
                             | Some b => b
                             | None => false
                             end);
     stretched := Some (match stretched data0 with
                        | Some b => b
                        | None => false
                        end) |}.
Proof.
  unfold constructor.
  change (data (with_tunes ?l ?t)) with (data t).
  rewrite set_data_data. cbn.
  destruct data0 as [[u|] c b g s]; cbn; [destruct (truthy u) eqn:T|];
    reflexivity.
Qed.

(** C5 fails as stated: a truthy url that holds an entity is not stored as
    given. *)
Lemma C5_url_not_stored_as_given :
  ~ (forall data0 api0 readOnly0 u,
       url data0 = Some u -> truthy u = true ->
       url (data (constructor data0 api0 readOnly0)) = Some u).
Proof.
  intros H.
  specialize (H {| url := Some "https://h/a.png?x=1&amp;y=2"; caption := None;
                   withBorder := None; withBackground := None;
                   stretched := None |}
                {| styles_block := "cdx-block"; styles_loader := "cdx-loader";
                   styles_input := "cdx-input"; getCurrentBlockIndex := 0 |}
                false "https://h/a.png?x=1&amp;y=2" eq_refl eq_refl).
  vm_compute in H. discriminate.
Qed.

(* --------------------------------------------------------------------- *)
(** ** save                                                                *)
(* --------------------------------------------------------------------- *)

Lemma Element_ind (P : Element -> Prop) :
  (forall p l, Forall P l -> P (El p l)) -> forall e, P e.
Proof.
  intros H. fix IH 1. intros [p l]. apply H.
  induction l as [|c l IHl]; constructor; [apply IH|exact IHl].
Qed.

Lemma find_app {A} (f : A -> bool) (l1 l2 : list A) :
  List.find f (l1 ++ l2) =
  match List.find f l1 with
  | Some x => Some x
  | None => List.find f l2
  end.
Proof.
  induction l1 as [|a l1 IH]; simpl; [reflexivity|].
  destruct (f a); [reflexivity|exact IH].
Qed.

(** [querySelector] returns the first descendant that the selector selects. *)
Lemma querySelector_first sel root :
  querySelector sel root =
  List.find (fun d => selects sel (props_of d)) (descendants root).
Proof.
  induction root as [p l IH] using Element_ind. simpl.
  induction IH as [|c l Hc _ IHl]; simpl; [reflexivity|].
  destruct (selects sel (props_of c)); [reflexivity|].
  rewrite find_app, <- Hc.
  destruct (querySelector sel c); [reflexivity|exact IHl].
Qed.

Lemma or_empty_Some s : or_empty (Some s) = s.
Proof. destruct s; reflexivity. Qed.

Lemma save_result blockContent this :
  save blockContent this =
  match first_image blockContent with
  | Some image =>
      let stored :=
        {| url := Some (decodeHTMLEntities (src (props_of image)));
           caption :=
             Some (match first_of_class (css_input (CSS this)) blockContent with
                   | Some c => innerHTML (props_of c)
                   | None => ""
                   end);
           withBorder := withBorder (data this);
           withBackground := withBackground (data this);
           stretched := stretched (data this) |} in
      (stored, with_data stored this)
  | None => (data this, this)
  end.
Proof.
  unfold save, first_image, first_of_class.
  rewrite !querySelector_first. cbn [selects].
  destruct (List.find _ (descendants blockContent)) as [image|]; [|reflexivity].
  cbv zeta.
  assert (E : (if truthy (src (props_of image))
               then decodeHTMLEntities (src (props_of image)) else "") =
              decodeHTMLEntities (src (props_of image))).
  { destruct (truthy (src (props_of image))) eqn:T; [reflexivity|].
    destruct (src (props_of image)); [reflexivity|discriminate]. }
  rewrite E.
  destruct (List.find _ (descendants blockContent)) as [c|];
    rewrite ?or_empty_Some; reflexivity.
Qed.

(** C1: when the block content has an [img] descendant, [save] returns a
    record whose url is [decodeHTMLEntities] of the src of the first one (the
    empty string for an empty src) and whose caption is the innerHTML of the
    first descendant that carries the input class, or the empty string when
    there is none or it is empty; when there is no [img] descendant, [save]
    returns the stored data and leaves the tool as it is. *)
Theorem C1_save_reads_dom blockContent this :
  match first_image blockContent with
  | Some image =>
      url (fst (save blockContent this)) =
        Some (if truthy (src (props_of image))
              then decodeHTMLEntities (src (props_of image)) else "") /\
      url (fst (save blockContent this)) =
        Some (decodeHTMLEntities (src (props_of image))) /\
      caption (fst (save blockContent this)) =
        Some (match first_of_class (css_input (CSS this)) blockContent with
              | Some c =>
                  if truthy (innerHTML (props_of c))
                  then innerHTML (props_of c) else ""
              | None => ""
              end)
  | None => save blockContent this = (data this, this)
  end.
Proof.
  rewrite save_result.
  destruct (first_image blockContent) as [image|]; [|reflexivity].
  cbn. repeat split.
  - now destruct (src (props_of image)).
  - destruct (first_of_class _ blockContent) as [c|]; [|reflexivity].
    now destruct (innerHTML (props_of c)).
Qed.

(** C10: [save] writes what it read into the stored record: the record that
    a later read of the data getter gives is the returned one, with the url
    and the caption taken from the block content when it has an image; and
    there are states that [save] changes. *)
Theorem C10_save_stores_result :
  (forall blockContent this,
     data (snd (save blockContent this)) = fst (save blockContent this)) /\
  (forall blockContent this,
     match first_image blockContent with
     | Some image =>
         url (data (snd (save blockContent this))) =
           Some (decodeHTMLEntities (src (props_of image))) /\
         caption (data (snd (save blockContent this))) =
           Some (match first_of_class (css_input (CSS this)) blockContent with
                 | Some c => innerHTML (props_of c)
                 | None => ""
                 end)
     | None => snd (save blockContent this) = this
     end) /\
  data (snd (save example_content example_tool)) <> data example_tool.
Proof.
  split; [|split].
  - intros blockContent this. rewrite save_result.
    destruct (first_image blockContent); reflexivity.
  - intros blockContent this. rewrite save_result.
    destruct (first_image blockContent); [split|]; reflexivity.
  - vm_compute. discriminate.
Qed.

(* --------------------------------------------------------------------- *)
(** ** Paste and drop                                                      *)
(* --------------------------------------------------------------------- *)

Lemma delete_last {A} (l : list A) (x : A) : delete (List.length l) (l ++ [x]) = l.
Proof.
  induction l as [|a l IH]; simpl; [reflexivity|]. now rewrite IH.
Qed.

Lemma lookup_last {A} (l : list A) (x : A) : (l ++ [x]) !! List.length l = Some x.
Proof. induction l as [|a l IH]; simpl; [reflexivity|exact IH]. Qed.

(** A file paste followed by the load of its reader. *)
Lemma file_paste_loaded file result this :
  file_loaded (List.length (reading this)) result (onPaste (FilePaste file) this) =
  match onDropHandler file result with
  | Some resolved => set_data resolved this
  | None => onPaste (FilePaste file) this
  end.
Proof.
  unfold file_loaded, onPaste.
  change (reading (with_reading ?l ?t)) with l.
  rewrite lookup_last, delete_last.
  destruct (onDropHandler file result); reflexivity.
Qed.

(** C3: a tag paste whose node is an image element assigns, through the data
    setter, the record whose url is [decodeHTMLEntities(img.src)]; a pattern
    paste assigns the record whose url is [decodeHTMLEntities] of the pasted
    text; a file paste hands the file to [onDropHandler] and assigns, through
    the same setter, the record the promise resolves to, which holds the data
    URL and the file name; a tag paste of another node and a paste of any
    other type leave the tool as it is. *)
Theorem C3_onPaste_funnels_into_setter this :
  (forall img,
     onPaste (TagPaste img) this =
     if is_HTMLImageElement img
     then set_data (only_url (decodeHTMLEntities (src (props_of img)))) this
     else this) /\
  (forall key pasted,
     onPaste (PatternPaste key pasted) this =
     set_data (only_url (decodeHTMLEntities pasted)) this) /\
  (forall file,
     data (onPaste (FilePaste file) this) = data this /\
     reading (onPaste (FilePaste file) this) = reading this ++ [file]) /\
  (forall file result,
     file_loaded (List.length (reading this)) result (onPaste (FilePaste file) this) =
     match onDropHandler file result with
     | Some resolved => set_data resolved this
     | None => onPaste (FilePaste file) this
     end) /\
  (forall file s,
     onDropHandler file (ResultString s) =
     Some {| url := Some s; caption := Some (name file); withBorder := None;
             withBackground := None; stretched := None |}) /\
  (forall type, onPaste (OtherPaste type) this = this).
Proof.
  split; [reflexivity|]. split; [reflexivity|]. split; [split; reflexivity|].
  split; [intros; apply file_paste_loaded|]. split; reflexivity.
Qed.

(** C4 fails as stated: the paste of a file also replaces the caption. *)
Lemma C4_file_paste_changes_caption :
  ~ (forall this file result,
       caption (data (file_loaded (List.length (reading this)) result
                        (onPaste (FilePaste file) this))) =
       caption (data this)).
Proof.
  intros H.
  specialize (H example_tool example_file (ResultString example_data_url)).
  vm_compute in H. discriminate.
Qed.

(** C4, as the code has it: the paste of an image tag and the paste of a
    pattern text change the url only, to the decoded text decoded once more
    by the setter; the paste of a file, once its reader has loaded it as a
    string, sets the url to the decoded data URL and the caption to the file
    name; in all of them [withBorder], [withBackground] and [stretched] keep
    their values, and until the reader has loaded the file the data is
    unchanged. *)
Theorem C4_paste_frame this :
  (forall img,
     data (onPaste (TagPaste img) this) =
     if is_HTMLImageElement img
     then {| url := Some (decodeHTMLEntities
                            (decodeHTMLEntities (src (props_of img))));
             caption := caption (data this);
             withBorder := withBorder (data this);
             withBackground := withBackground (data this);
             stretched := stretched (data this) |}
     else data this) /\
  (forall key pasted,
     data (onPaste (PatternPaste key pasted) this) =
     {| url := Some (decodeHTMLEntities (decodeHTMLEntities pasted));
        caption := caption (data this);
        withBorder := withBorder (data this);
        withBackground := withBackground (data this);
        stretched := stretched (data this) |}) /\
  (forall file, data (onPaste (FilePaste file) this) = data this) /\
  (forall file s,
     data (file_loaded (List.length (reading this)) (ResultString s)
             (onPaste (FilePaste file) this)) =
     {| url := Some (decodeHTMLEntities s);
        caption := Some (name file);
        withBorder := withBorder (data this);
        withBackground := withBackground (data this);
        stretched := stretched (data this) |}).
Proof.
  repeat split.
  - intros img. unfold onPaste. destruct (is_HTMLImageElement img); [|reflexivity].
    rewrite set_data_data. reflexivity.
  - intros key pasted. unfold onPaste. rewrite set_data_data. reflexivity.
  - intros file s. rewrite file_paste_loaded. cbn [onDropHandler].
    rewrite set_data_data. reflexivity.
Qed.

Example paste_tag_ex :
  data (onPaste (TagPaste example_img) example_tool) =
  {| url := Some "https://h/a.png?x=1&y"; caption := Some "old";
     withBorder := Some true; withBackground := Some false;
     stretched := Some false |}.
Proof. vm_compute. reflexivity. Qed.

(* --------------------------------------------------------------------- *)
(** ** Tunes                                                               *)
(* --------------------------------------------------------------------- *)

Lemma constructor_tunes data0 api0 readOnly0 :
  tunes (constructor data0 api0 readOnly0) = image_tunes.
Proof. reflexivity. Qed.

Example modifier_ex :
  map (modifier example_tool) [TuneWithBorder; TuneStretched; TuneWithBackground] =
  [ "cdx-simple-image__picture--with-border";
    "cdx-simple-image__picture--stretched";
    "cdx-simple-image__picture--with-background" ].
Proof. vm_compute. reflexivity. Qed.

Lemma append_inj_l (p a b : string) : p +:+ a = p +:+ b -> a = b.
Proof. induction p as [|c p IH]; simpl; [auto|]. intros [=]. auto. Qed.

Lemma modifier_inj this m n : modifier this m = modifier this n -> m = n.
Proof.
  unfold modifier. intros H. apply append_inj_l in H.
  destruct m, n; try reflexivity; vm_compute in H; discriminate.
Qed.

Lemma elem_of_token_toggle (c c' : string) (force : bool) (l : list string) :
  c ∈ token_toggle c' force l <->
  (c = c' /\ force = true) \/ (c <> c' /\ c ∈ l).
Proof.
  unfold token_toggle, token_add, token_remove. destruct force.
  - case_bool_decide as Hin.
    + destruct (decide (c = c')) as [->|Hne]; intuition congruence.
    + rewrite elem_of_app, list_elem_of_singleton.
      destruct (decide (c = c')) as [->|Hne]; intuition congruence.
  - rewrite list_elem_of_filter. intuition congruence.
Qed.

(** [_acceptTuneView] with the tunes of the constructor, step by step. *)
Lemma acceptTuneView_image_tunes this :
  tunes this = image_tunes ->
  _acceptTuneView this =
  call (StretchBlock (blockIndex this) (to_boolean (stretched (data this))))
    (with_dom
       (match nodes_imageHolder (nodes this) with
        | Some holder =>
            classList_toggle holder (modifier this TuneWithBackground)
              (to_boolean (withBackground (data this)))
              (classList_toggle holder (modifier this TuneStretched)
                 (to_boolean (stretched (data this)))
                 (classList_toggle holder (modifier this TuneWithBorder)
                    (to_boolean (withBorder (data this))) (dom this)))
        | None => dom this
        end) this).
Proof.
  intros Ht. unfold _acceptTuneView. rewrite Ht.
  destruct this as [a r b dt cs [w [h|] i c] tu dm rd cl]; reflexivity.
Qed.

Lemma classList_toggle_classes holder c force d e :
  d !! holder = Some e ->
  classList_toggle holder c force d !! holder =
  Some (with_props (set_classList (token_toggle c force)) e).
Proof.
  intros He. unfold classList_toggle.
  rewrite list_lookup_alter_eq, He. reflexivity.
Qed.

(** C6: for each of the three tunes, [_toggleTune] negates its flag and
    leaves the url, the caption and the two other flags as they were;
    afterwards the image holder carries the modifier class of a tune exactly
    when the flag of that tune is true, and the tool has made one more call to
    the host, [stretchBlock(blockIndex, stretched)] with the flag as it is
    now. *)
Theorem C6_toggleTune this n holder :
  tunes this = image_tunes ->
  nodes_imageHolder (nodes this) = Some holder ->
  (holder < List.length (dom this))%nat ->
  get_flag n (data (_toggleTune n this)) =
    Some (negb (to_boolean (get_flag n (data this)))) /\
  (forall m, m <> n ->
     get_flag m (data (_toggleTune n this)) = get_flag m (data this)) /\
  url (data (_toggleTune n this)) = url (data this) /\
  caption (data (_toggleTune n this)) = caption (data this) /\
  (exists classes,
     classes_of holder (_toggleTune n this) = Some classes /\
     forall m,
       modifier this m ∈ classes <->
       to_boolean (get_flag m (data (_toggleTune n this))) = true) /\
  calls (_toggleTune n this) =
    calls this ++
    [StretchBlock (blockIndex this)
       (to_boolean (stretched (data (_toggleTune n this))))].
Proof.
  intros Ht Hh Hlt.
  destruct (lookup_lt_is_Some_2 (dom this) holder Hlt) as [e He].
  unfold _toggleTune.
  set (flipped := with_data _ this).
  assert (Hd : data (_acceptTuneView flipped) = data flipped).
  { rewrite acceptTuneView_image_tunes by exact Ht. reflexivity. }
  rewrite acceptTuneView_image_tunes by exact Ht.
  change (nodes flipped) with (nodes this). rewrite Hh.
  split; [|split; [|split; [|split; [|split]]]].
  - subst flipped. destruct n; reflexivity.
  - intros m Hm. subst flipped. destruct m, n; try reflexivity; congruence.
  - subst flipped. destruct n; reflexivity.
  - subst flipped. destruct n; reflexivity.
  - unfold classes_of. cbn [dom call with_dom].
    change (dom flipped) with (dom this).
    pose proof (classList_toggle_classes holder (modifier flipped TuneWithBorder)
                  (to_boolean (withBorder (data flipped))) _ _ He) as H1.
    pose proof (classList_toggle_classes holder (modifier flipped TuneStretched)
                  (to_boolean (stretched (data flipped))) _ _ H1) as H2.
    pose proof (classList_toggle_classes holder (modifier flipped TuneWithBackground)
                  (to_boolean (withBackground (data flipped))) _ _ H2) as H3.
    rewrite H3. cbn [fmap option_fmap option_map].
    eexists; split; [reflexivity|].
    intros m. cbn [props with_props classList set_classList].
    change (modifier flipped) with (modifier this).
    rewrite !elem_of_token_toggle.
    change (data (call ?c (with_dom ?d flipped))) with (data flipped).
    pose proof (modifier_inj this) as Hinj.
    destruct m; cbn [get_flag];
      (split;
       [ intros [[Heq Hf]|[Hne [[Heq Hf]|[Hne' [[Heq Hf]|[Hne'' _]]]]]];
         try (apply Hinj in Heq; discriminate); try exact Hf; congruence
       | intros Hf ]).
    + right. split; [intros H; apply Hinj in H; discriminate|].
      right. split; [intros H; apply Hinj in H; discriminate|]. left. auto.
    + right. split; [intros H; apply Hinj in H; discriminate|]. left. auto.
    + left. auto.
  - reflexivity.
Qed.

Lemma C6_toggleTune_witness :
  tunes rendered_tool = image_tunes /\
  nodes_imageHolder (nodes rendered_tool) = Some 2%nat /\
  (2 < List.length (dom rendered_tool))%nat /\
  calls (_toggleTune TuneStretched rendered_tool) = [StretchBlock 1 true].
Proof.
  assert (H : (2 < List.length (dom rendered_tool))%nat) by (vm_compute; lia).
  split; [reflexivity|]. split; [reflexivity|]. split; [exact H|].
  destruct (C6_toggleTune rendered_tool TuneStretched 2 eq_refl eq_refl H)
    as (_ & _ & _ & _ & _ & Hcalls).
  rewrite Hcalls. vm_compute. reflexivity.
Defined.

(* --------------------------------------------------------------------- *)
(** ** Rendering                                                           *)
(* --------------------------------------------------------------------- *)

Lemma fmap_alter_commute {A B} (f : A -> B) (g : A -> A) (h : B -> B)
    (l : list A) (i : nat) :
  (forall x, f (g x) = h (f x)) -> f <$> alter g i l = alter h i (f <$> l).
Proof. intros H. apply list_fmap_alter, Forall_true, H. Qed.

Lemma alter_app_from {A} (f : A -> A) (l1 l2 : list A) (i k : nat) :
  i = (List.length l1 + k)%nat -> alter f i (l1 ++ l2) = l1 ++ alter f k l2.
Proof. intros ->. apply alter_app_r. Qed.

Lemma skeleton_alter_props f i (d : Dom) :
  skeleton <$> alter (with_props f) i d = skeleton <$> d.
Proof.
  rewrite (fmap_alter_commute skeleton (with_props f) id) by reflexivity.
  now apply list_alter_id.
Qed.

Lemma skeleton_alter_handlers l r i (d : Dom) :
  skeleton <$> alter (with_handlers l r) i d =
  alter (sk_handlers l r) i (skeleton <$> d).
Proof. now apply fmap_alter_commute. Qed.

Lemma skeleton_remove_node c (d : Dom) :
  skeleton <$> remove_node c d = sk_remove c <$> (skeleton <$> d).
Proof.
  unfold remove_node. induction d as [|e d IH]; [reflexivity|].
  cbn. now rewrite <- IH.
Qed.

Lemma skeleton_appendChild p c (d : Dom) :
  skeleton <$> appendChild p c d =
  alter (sk_append c) p (sk_remove c <$> (skeleton <$> d)).
Proof.
  unfold appendChild.
  rewrite (fmap_alter_commute skeleton _ (sk_append c)) by reflexivity.
  now rewrite skeleton_remove_node.
Qed.

Lemma skeleton_classList_add n cs (d : Dom) :
  skeleton <$> classList_add n cs d = skeleton <$> d.
Proof. apply skeleton_alter_props. Qed.

Lemma skeleton_classList_remove n c (d : Dom) :
  skeleton <$> classList_remove n c d = skeleton <$> d.
Proof. apply skeleton_alter_props. Qed.

Lemma skeleton_classList_toggle n c force (d : Dom) :
  skeleton <$> classList_toggle n c force d = skeleton <$> d.
Proof. apply skeleton_alter_props. Qed.

Lemma skeleton_make tagName classNames attributes (d : Dom) :
  fst (_make tagName classNames attributes d) = List.length d /\
  skeleton <$> snd (_make tagName classNames attributes d) =
  (skeleton <$> d) ++ [([], None, false)].
Proof.
  unfold _make, createElement. cbn [fst snd]. split; [reflexivity|].
  set (d0 := match classNames with
             | ClassArray l => classList_add (List.length d) l _
             | ClassName c => if truthy c then classList_add (List.length d) [c] _ else _
             | NoClassNames => _
             end).
  assert (H0 : skeleton <$> d0 = (skeleton <$> d) ++ [([], None, false)]).
  { subst d0. destruct classNames as [l|c|]; [|destruct (truthy c)|];
      rewrite ?skeleton_classList_add, fmap_app; reflexivity. }
  clearbody d0. revert d0 H0.
  induction attributes as [|a attributes IH]; intros d0 H0; [exact H0|].
  cbn [foldl]. apply IH. now rewrite skeleton_alter_props.
Qed.

Lemma sk_remove_closed c (sk : list Skeleton) :
  closed_skeletons sk -> (List.length sk <= c)%nat -> sk_remove c <$> sk = sk.
Proof.
  unfold closed_skeletons. intros Hc Hle.
  assert (H : Forall (fun s => sk_remove c s = s) sk).
  { eapply Forall_impl; [exact Hc|]. intros [[ch l] r] Hch. unfold sk_remove.
    cbn in *. f_equal. f_equal.
    induction Hch as [|x ch Hx _ IH]; [reflexivity|].
    rewrite filter_cons_True by lia. now rewrite IH. }
  clear Hc Hle. induction H as [|s sk Hs _ IH]; [reflexivity|].
  cbn. now rewrite Hs, IH.
Qed.

Lemma closed_skeletons_app (sk extra : list Skeleton) :
  closed_skeletons sk ->
  Forall (fun s => Forall (fun c => c < List.length (sk ++ extra))%nat s.1.1) extra ->
  closed_skeletons (sk ++ extra).
Proof.
  unfold closed_skeletons. intros Hc He. apply Forall_app. split; [|exact He].
  eapply Forall_impl; [exact Hc|]. intros s Hs.
  eapply Forall_impl; [exact Hs|]. intros c Hlt. cbn in *.
  rewrite length_app. lia.
Qed.

Lemma render_result this :
  closed (dom this) ->
  fst (render this) = List.length (dom this) /\
  nodes (snd (render this)) =
    {| nodes_wrapper := Some (List.length (dom this));
       nodes_imageHolder := Some (List.length (dom this) + 2)%nat;
       nodes_image := Some (List.length (dom this) + 3)%nat;
       nodes_caption := Some (List.length (dom this) + 4)%nat |} /\
  skeleton <$> dom (snd (render this)) =
    (skeleton <$> dom this) ++ rendered_skeletons (List.length (dom this)).
Proof.
  intros Hc. unfold render.
  set (n := List.length (dom this)).
  destruct (_make "div" (ClassArray _) [] (dom this)) as [wrapper d1] eqn:E1.
  destruct (_make "div" (ClassName (css_loading _)) [] d1) as [loader d2] eqn:E2.
  destruct (_make "div" (ClassName (css_imageHolder _)) [] d2) as [holder d3] eqn:E3.
  destruct (_make "img" NoClassNames [] d3) as [image d4] eqn:E4.
  destruct (_make "div" (ClassArray [css_input _; _]) _ d4) as [cap d5] eqn:E5.
  pose proof (skeleton_make "div"
                (ClassArray [css_baseClass (CSS this); css_wrapper (CSS this)])
                [] (dom this)) as [W1 S1].
  rewrite E1 in W1, S1. cbn [fst snd] in W1, S1.
  pose proof (skeleton_make "div" (ClassName (css_loading (CSS this))) [] d1)
    as [W2 S2].
  rewrite E2 in W2, S2. cbn [fst snd] in W2, S2.
  pose proof (skeleton_make "div" (ClassName (css_imageHolder (CSS this))) [] d2)
    as [W3 S3].
  rewrite E3 in W3, S3. cbn [fst snd] in W3, S3.
  pose proof (skeleton_make "img" NoClassNames [] d3) as [W4 S4].
  rewrite E4 in W4, S4. cbn [fst snd] in W4, S4.
  pose proof (skeleton_make "div"
                (ClassArray [css_input (CSS this); css_caption (CSS this)])
                [AttrContentEditable (negb (readOnly this));
                 AttrInnerHTML (or_empty (caption (data this)))] d4) as [W5 S5].
  rewrite E5 in W5, S5. cbn [fst snd] in W5, S5.
  assert (L1 : List.length d1 = S n).
  { apply (f_equal List.length) in S1.
    rewrite length_app, !length_fmap in S1. cbn in S1. subst n. lia. }
  assert (L2 : List.length d2 = S (S n)).
  { apply (f_equal List.length) in S2.
    rewrite length_app, !length_fmap in S2. cbn in S2. lia. }
  assert (L3 : List.length d3 = S (S (S n))).
  { apply (f_equal List.length) in S3.
    rewrite length_app, !length_fmap in S3. cbn in S3. lia. }
  assert (L4 : List.length d4 = S (S (S (S n)))).
  { apply (f_equal List.length) in S4.
    rewrite length_app, !length_fmap in S4. cbn in S4. lia. }
  fold n in W1. subst wrapper loader holder image cap.
  rewrite L1, L2, L3, L4. cbn [fst snd nodes dom with_nodes with_dom].
  split; [reflexivity|]. split; [f_equal; f_equal; lia|].
  rewrite skeleton_alter_handlers.
  assert (Hsrc : forall d : Dom,
            skeleton <$> (match url (data this) with
                          | Some u =>
                              if truthy u
                              then alter (with_props (set_src u)) (S (S (S n))) d
                              else d
                          | None => d
                          end) = skeleton <$> d).
  { intros d. destruct (url (data this)) as [u|]; [destruct (truthy u)|];
      rewrite ?skeleton_alter_props; reflexivity. }
  rewrite Hsrc, skeleton_appendChild, skeleton_alter_props.
  rewrite S5, S4, S3, S2, S1. rewrite <- !app_assoc. cbn [app].
  rewrite fmap_app.
  rewrite (sk_remove_closed (S n) (skeleton <$> dom this) Hc)
    by (rewrite length_fmap; subst n; lia).
  assert (Hn : List.length (skeleton <$> dom this) = n)
    by (rewrite length_fmap; reflexivity).
  rewrite (alter_app_from _ (skeleton <$> dom this) _ n 0) by lia.
  rewrite (alter_app_from _ (skeleton <$> dom this) _ (S (S (S n))) 3) by lia.
  unfold rendered_skeletons, sk_append, sk_remove, sk_handlers.
  cbn [fmap list_fmap fst snd alter list_alter]. rewrite !filter_nil. cbn [app].
  replace (n + 1)%nat with (S n) by lia.
  replace (n + 2)%nat with (S (S n)) by lia.
  replace (n + 3)%nat with (S (S (S n))) by lia.
  replace (n + 4)%nat with (S (S (S (S n)))) by lia.
  reflexivity.
Qed.

Lemma set_data_skeleton d this :
  skeleton <$> dom (set_data d this) = skeleton <$> dom this.
Proof.
  unfold set_data.
  destruct this as [a r b dt cs [w h [i|] [c|]] tu dm rd cl];
    cbn [dom with_dom with_data nodes nodes_image nodes_caption];
    rewrite ?skeleton_alter_props; reflexivity.
Qed.

Lemma acceptTuneView_skeleton this :
  skeleton <$> dom (_acceptTuneView this) = skeleton <$> dom this.
Proof.
  unfold _acceptTuneView. generalize (tunes this) as l. intros l.
  revert this. induction l as [|t l IH]; intros this; [reflexivity|].
  cbn [foldl]. rewrite IH.
  destruct (String.eqb _ _), (nodes_imageHolder (nodes this));
    cbn [dom call with_dom]; rewrite ?skeleton_classList_toggle; reflexivity.
Qed.

Lemma rendered_skeletons_closed (sk : list Skeleton) :
  closed_skeletons sk ->
  closed_skeletons (sk ++ rendered_skeletons (List.length sk)).
Proof.
  intros Hc. apply closed_skeletons_app; [exact Hc|].
  rewrite length_app. unfold rendered_skeletons. cbn [List.length].
  repeat constructor; cbn; lia.
Qed.

(** An event other than a load keeps the skeleton of every element and at
    most adds elements. *)
Lemma step_skeleton ev this :
  is_load ev = false -> closed (dom this) ->
  exists extra,
    skeleton <$> dom (step ev this) = (skeleton <$> dom this) ++ extra /\
    closed (dom (step ev this)).
Proof.
  intros Hev Hc.
  assert (same : forall t : SimpleImage,
            skeleton <$> dom t = skeleton <$> dom this ->
            exists extra,
              skeleton <$> dom t = (skeleton <$> dom this) ++ extra /\
              closed (dom t)).
  { intros t Ht. exists []. rewrite app_nil_r. split; [exact Ht|].
    unfold closed. now rewrite Ht. }
  destruct ev as [|blockContent|event|i result|d|n|image|image];
    cbn [step]; try discriminate.
  - destruct (render_result this Hc) as (_ & _ & Hs).
    exists (rendered_skeletons (List.length (dom this))). split; [exact Hs|].
    unfold closed. rewrite Hs.
    rewrite <- (length_fmap skeleton (dom this)).
    now apply rendered_skeletons_closed.
  - apply same. unfold save.
    destruct (querySelector (ByTag "img") blockContent); reflexivity.
  - apply same. destruct event as [img|key pasted|file|type]; cbn [onPaste].
    + destruct (is_HTMLImageElement img); [apply set_data_skeleton|reflexivity].
    + apply set_data_skeleton.
    + reflexivity.
    + reflexivity.
  - apply same. unfold file_loaded.
    destruct (reading this !! i) as [file|]; [|reflexivity].
    destruct (onDropHandler file result); [|reflexivity].
    now rewrite set_data_skeleton.
  - apply same, set_data_skeleton.
  - apply same. unfold _toggleTune. now rewrite acceptTuneView_skeleton.
  - apply same. unfold image_error.
    destruct (dom this !! image) as [e|]; [|reflexivity].
    destruct (onerror e); reflexivity.
Qed.

Lemma run_skeleton evs this :
  no_load evs = true -> closed (dom this) ->
  exists extra,
    skeleton <$> dom (run evs this) = (skeleton <$> dom this) ++ extra /\
    closed (dom (run evs this)).
Proof.
  revert this. induction evs as [|ev evs IH]; intros this Hn Hc.
  - exists []. rewrite app_nil_r. auto.
  - cbn in Hn. apply andb_true_iff in Hn as [Hev Hn].
    apply negb_true_iff in Hev.
    destruct (step_skeleton ev this Hev Hc) as (e1 & H1 & C1).
    destruct (IH (step ev this) Hn C1) as (e2 & H2 & C2).
    exists (e1 ++ e2). split; [|exact C2].
    change (run (ev :: evs) this) with (run evs (step ev this)).
    now rewrite H2, H1, app_assoc.
Qed.

Lemma skeleton_lookup (d : Dom) i ch l r :
  (skeleton <$> d) !! i = Some (ch, l, r) ->
  exists e, d !! i = Some e /\ children e = ch /\ onload e = l /\ onerror e = r.
Proof.
  rewrite list_lookup_fmap. destruct (d !! i) as [e|]; [|discriminate].
  cbn. intros [=]. eauto.
Qed.

Lemma children_of_skeleton n this ch l r :
  (skeleton <$> dom this) !! n = Some (ch, l, r) -> children_of n this = Some ch.
Proof.
  intros H. apply skeleton_lookup in H as (e & He & Hch & _).
  unfold children_of. now rewrite He, <- Hch.
Qed.

Lemma children_of_lookup n this :
  children_of n this = (fun s : Skeleton => s.1.1) <$> (skeleton <$> dom this) !! n.
Proof.
  unfold children_of. rewrite list_lookup_fmap.
  destruct (dom this !! n); reflexivity.
Qed.

Lemma run_onload_skeleton h this :
  skeleton <$> dom (run_onload h this) =
  sk_remove (h_loader h) <$>
    alter (sk_append (h_caption h)) (h_wrapper h)
      (sk_remove (h_caption h) <$>
         alter (sk_append (h_imageHolder h)) (h_wrapper h)
           (sk_remove (h_imageHolder h) <$>
              alter (sk_append (h_image h)) (h_imageHolder h)
                (sk_remove (h_image h) <$> (skeleton <$> dom this)))).
Proof.
  unfold run_onload. rewrite acceptTuneView_skeleton. cbn [dom with_dom].
  rewrite skeleton_remove_node, !skeleton_appendChild, skeleton_classList_remove.
  reflexivity.
Qed.

Lemma constructor_dom data0 api0 readOnly0 :
  dom (constructor data0 api0 readOnly0) = [].
Proof. reflexivity. Qed.

(** The state of the rendered elements as long as no load event was fired. *)
Lemma rendered_then_no_load this evs :
  closed (dom this) -> no_load evs = true ->
  exists extra,
    skeleton <$> dom (run evs (snd (render this))) =
    (skeleton <$> dom this) ++ rendered_skeletons (List.length (dom this)) ++ extra.
Proof.
  intros Hc Hn. destruct (render_result this Hc) as (_ & _ & Hs).
  assert (Hc1 : closed (dom (snd (render this)))).
  { unfold closed. rewrite Hs. rewrite <- (length_fmap skeleton (dom this)).
    now apply rendered_skeletons_closed. }
  destruct (run_skeleton evs _ Hn Hc1) as (extra & He & _).
  exists extra. now rewrite He, Hs, <- app_assoc.
Qed.

Lemma lookup_rendered (sk extra : list Skeleton) n k :
  List.length sk = n -> (k < 5)%nat ->
  (sk ++ rendered_skeletons n ++ extra) !! (n + k)%nat =
  rendered_skeletons n !! k.
Proof.
  intros <- Hk. rewrite lookup_app_r by lia.
  replace (List.length sk + k - List.length sk)%nat with k by lia.
  apply lookup_app_l. cbn. lia.
Qed.

Lemma lookup_rendered_wrapper (sk extra : list Skeleton) n :
  List.length sk = n ->
  (sk ++ rendered_skeletons n ++ extra) !! n = Some ([S n], None, false).
Proof.
  intros H. pose proof (lookup_rendered sk extra n 0 H ltac:(lia)) as K.
  rewrite Nat.add_0_r in K. exact K.
Qed.

Lemma lookup_rendered_holder (sk extra : list Skeleton) n :
  List.length sk = n ->
  (sk ++ rendered_skeletons n ++ extra) !! (n + 2)%nat = Some ([], None, false).
Proof. intros H. now rewrite lookup_rendered by (auto; lia). Qed.

Lemma lookup_rendered_image (sk extra : list Skeleton) n :
  List.length sk = n ->
  (sk ++ rendered_skeletons n ++ extra) !! (n + 3)%nat =
  Some ([], Some {| h_wrapper := n; h_loader := n + 1; h_imageHolder := n + 2;
                    h_image := n + 3; h_caption := n + 4 |}, true).
Proof. intros H. now rewrite lookup_rendered by (auto; lia). Qed.

(** C8: [render] returns a wrapper whose only child is the loader, and
    records the four nodes; as long as no load event is fired, whatever else
    happens to the tool, the wrapper keeps the loader as its only child; when
    the load event of the image is fired, the image holder, holding the image,
    and the caption become the children of the wrapper and the loader is
    removed; when the error event of the image is fired, the tool writes a
    message to the console and changes nothing else. *)
Theorem C8_render_loading_until_load this evs :
  closed (dom this) ->
  no_load evs = true ->
  let wrapper := fst (render this) in
  let loader := (wrapper + 1)%nat in
  let imageHolder := (wrapper + 2)%nat in
  let image := (wrapper + 3)%nat in
  let cap := (wrapper + 4)%nat in
  let rendered := snd (render this) in
  let later := run evs rendered in
  wrapper = List.length (dom this) /\
  nodes rendered =
    {| nodes_wrapper := Some wrapper; nodes_imageHolder := Some imageHolder;
       nodes_image := Some image; nodes_caption := Some cap |} /\
  children_of wrapper rendered = Some [loader] /\
  children_of wrapper later = Some [loader] /\
  children_of wrapper (image_load image later) = Some [imageHolder; cap] /\
  children_of imageHolder (image_load image later) = Some [image] /\
  image_error image later = call (ConsoleLog "Failed to load an image") later.
Proof.
  intros Hc Hn. cbv zeta.
  destruct (render_result this Hc) as (Hw & Hnodes & Hs).
  rewrite Hw. set (n := List.length (dom this)) in *.
  destruct (rendered_then_no_load this evs Hc Hn) as (extra & Hl).
  destruct (rendered_then_no_load this [] Hc eq_refl) as (extra0 & Hl0).
  change (run [] ?t) with t in Hl0.
  fold n in Hl, Hl0.
  assert (Hlen : List.length (skeleton <$> dom this) = n)
    by now rewrite length_fmap.
  clearbody n.
  pose proof (lookup_rendered_wrapper _ extra0 n Hlen) as R0.
  pose proof (lookup_rendered_wrapper _ extra n Hlen) as K0.
  pose proof (lookup_rendered_holder _ extra n Hlen) as K2.
  pose proof (lookup_rendered_image _ extra n Hlen) as K3.
  rewrite <- Hl in K0, K2, K3. rewrite <- Hl0 in R0.
  split; [reflexivity|]. split; [exact Hnodes|].
  split; [|split; [|split; [|split]]].
  - replace (n + 1)%nat with (S n) by lia.
    eapply children_of_skeleton. exact R0.
  - replace (n + 1)%nat with (S n) by lia.
    eapply children_of_skeleton. exact K0.
  - destruct (skeleton_lookup _ _ _ _ _ K3) as (e & He & _ & Hload & _).
    unfold image_load. rewrite He, Hload.
    rewrite children_of_lookup, run_onload_skeleton. cbn [h_wrapper h_loader
      h_imageHolder h_image h_caption].
    rewrite list_lookup_fmap, list_lookup_alter_eq, list_lookup_fmap,
      list_lookup_alter_eq, list_lookup_fmap, list_lookup_alter_ne by lia.
    rewrite list_lookup_fmap, K0.
    unfold sk_remove, sk_append. simplify_children. reflexivity.
  - destruct (skeleton_lookup _ _ _ _ _ K3) as (e & He & _ & Hload & _).
    unfold image_load. rewrite He, Hload.
    rewrite children_of_lookup, run_onload_skeleton. cbn [h_wrapper h_loader
      h_imageHolder h_image h_caption].
    rewrite list_lookup_fmap, list_lookup_alter_ne, list_lookup_fmap,
      list_lookup_alter_ne, list_lookup_fmap, list_lookup_alter_eq by lia.
    rewrite list_lookup_fmap, K2.
    unfold sk_remove, sk_append. simplify_children. reflexivity.
  - destruct (skeleton_lookup _ _ _ _ _ K3) as (e & He & _ & _ & Herr).
    unfold image_error. rewrite He, Herr. reflexivity.
Qed.

Lemma closed_new_tool data0 api0 readOnly0 :
  closed (dom (constructor data0 api0 readOnly0)).
Proof.
  unfold closed. rewrite constructor_dom. constructor.
Qed.

Lemma C8_render_loading_until_load_witness :
  closed (dom example_tool) /\
  no_load example_events = true /\
  children_of 0 (run example_events (snd (render example_tool))) = Some [1%nat] /\
  children_of 0 (image_load 3 (run example_events (snd (render example_tool)))) =
    Some [2%nat; 4%nat].
Proof.
  assert (Hc : closed (dom example_tool)) by apply closed_new_tool.
  split; [exact Hc|]. split; [reflexivity|].
  destruct (C8_render_loading_until_load example_tool example_events Hc eq_refl)
    as (_ & _ & _ & Hlater & Hload & _).
  split; [exact Hlater|exact Hload].
Defined.

Example render_ex :
  children_of 0 rendered_tool = Some [1%nat] /\
  classes_of 0 rendered_tool = Some ["cdx-block"; "cdx-simple-image"] /\
  classes_of 1 rendered_tool = Some ["cdx-loader"] /\
  calls (image_load 3 rendered_tool) = [StretchBlock 1 false] /\
  classes_of 2 (image_load 3 rendered_tool) =
    Some ["cdx-simple-image__picture"; "cdx-simple-image__picture--with-border"] /\
  calls (image_error 3 rendered_tool) = [ConsoleLog "Failed to load an image"].
Proof. vm_compute. repeat split. Qed.

(* --------------------------------------------------------------------- *)
(** ** Reachable states                                                    *)
(* --------------------------------------------------------------------- *)

Lemma acceptTuneView_tunes this : tunes (_acceptTuneView this) = tunes this.
Proof.
  unfold _acceptTuneView. generalize (tunes this) at 1 as l. intros l.
  revert this. induction l as [|t l IH]; intros this; [reflexivity|].
  cbn [foldl]. rewrite IH.
  destruct (String.eqb _ _), (nodes_imageHolder (nodes this)); reflexivity.
Qed.

Lemma set_data_tunes d this : tunes (set_data d this) = tunes this.
Proof. apply set_data_frame. Qed.

Lemma step_tunes ev this : tunes (step ev this) = tunes this.
Proof.
  destruct ev as [|blockContent|event|i result|d|n|image|image]; cbn [step].
  - reflexivity.
  - unfold save. destruct (querySelector (ByTag "img") blockContent); reflexivity.
  - destruct event as [img|key pasted|file|type]; cbn [onPaste];
      [destruct (is_HTMLImageElement img)|..];
      try reflexivity; apply set_data_tunes.
  - unfold file_loaded. destruct (reading this !! i) as [file|]; [|reflexivity].
    destruct (onDropHandler file result); [|reflexivity].
    now rewrite set_data_tunes.
  - apply set_data_tunes.
  - unfold _toggleTune. now rewrite acceptTuneView_tunes.
  - unfold image_load. destruct (dom this !! image) as [e|]; [|reflexivity].
    destruct (onload e); [|reflexivity].
    unfold run_onload. now rewrite acceptTuneView_tunes.
  - unfold image_error. destruct (dom this !! image) as [e|]; [|reflexivity].
    destruct (onerror e); reflexivity.
Qed.

(** Every reachable tool has the tunes of the constructor. *)
Lemma reachable_tunes this : reachable this -> tunes this = image_tunes.
Proof.
  induction 1 as [|ev this _ IH]; [reflexivity|]. now rewrite step_tunes.
Qed.

Lemma sound_skeleton_mono n m s :
  (n <= m)%nat -> sound_skeleton n s -> sound_skeleton m s.
Proof.
  intros Hle [Hc Hh]. split.
  - eapply Forall_impl; [exact Hc|]. cbn. intros; lia.
  - intros h Hs. specialize (Hh h Hs). unfold handler_in in *. lia.
Qed.

Lemma sound_sk_remove n c s : sound_skeleton n s -> sound_skeleton n (sk_remove c s).
Proof.
  intros [Hc Hh]. split; [|exact Hh]. cbn.
  apply Forall_forall. intros x Hx. apply list_elem_of_filter in Hx as [_ Hx].
  revert x Hx. now apply Forall_forall.
Qed.

Lemma sound_sk_append n c s :
  (c < n)%nat -> sound_skeleton n s -> sound_skeleton n (sk_append c s).
Proof.
  intros Hlt [Hc Hh]. split; [|exact Hh]. cbn.
  apply Forall_app. split; [exact Hc|]. now constructor.
Qed.

Lemma well_formed_closed (d : Dom) : well_formed d -> closed d.
Proof.
  unfold well_formed, closed, closed_skeletons. rewrite length_fmap.
  intros H. eapply Forall_impl; [exact H|]. now intros s [Hs _].
Qed.

Lemma run_onload_well_formed h this :
  handler_in (List.length (dom this)) h ->
  well_formed (dom this) -> well_formed (dom (run_onload h this)).
Proof.
  intros (Hw & Hl & Hh & Hi & Hc) Hwf. unfold well_formed in *.
  assert (Hlen : List.length (dom (run_onload h this)) = List.length (dom this)).
  { rewrite <- (length_fmap skeleton), run_onload_skeleton.
    repeat (rewrite length_fmap || rewrite length_alter). reflexivity. }
  rewrite Hlen, run_onload_skeleton.
  set (n := List.length (dom this)) in *.
  assert (rm : forall c (sk : list Skeleton),
            Forall (sound_skeleton n) sk ->
            Forall (sound_skeleton n) (sk_remove c <$> sk)).
  { intros c sk H. apply Forall_fmap. eapply Forall_impl; [exact H|].
    intros s. apply sound_sk_remove. }
  assert (ap : forall c p (sk : list Skeleton),
            (c < n)%nat -> Forall (sound_skeleton n) sk ->
            Forall (sound_skeleton n) (alter (sk_append c) p sk)).
  { intros c p sk Hlt H. apply Forall_alter; [exact H|].
    intros s _. now apply sound_sk_append. }
  auto 10.
Qed.

Lemma rendered_skeletons_sound n :
  Forall (sound_skeleton (n + 5)) (rendered_skeletons n).
Proof.
  unfold rendered_skeletons.
  repeat constructor; cbn; try lia; try discriminate.
  all: match goal with H : _ = Some _ |- _ => cbn in H; injection H as <- end.
  all: cbn; lia.
Qed.

(** The elements of a reachable tool refer to elements of that tool only. *)
Lemma step_well_formed ev this :
  well_formed (dom this) -> well_formed (dom (step ev this)).
Proof.
  intros Hwf. pose proof (well_formed_closed _ Hwf) as Hc.
  destruct (is_load ev) eqn:Hev.
  - destruct ev; try discriminate. cbn [step]. unfold image_load.
    destruct (dom this !! image) as [e|] eqn:He; [|exact Hwf].
    destruct (onload e) as [h|] eqn:Hh; [|exact Hwf].
    apply run_onload_well_formed; [|exact Hwf].
    unfold well_formed in Hwf.
    assert (Hs : (skeleton <$> dom this) !! image = Some (skeleton e))
      by (now rewrite list_lookup_fmap, He).
    destruct (Forall_lookup_1 _ _ _ _ Hwf Hs) as [_ Hin]. now apply Hin.
  - destruct (step_skeleton ev this Hev Hc) as (extra & Hs & _).
    destruct (decide (extra = [])) as [->|Hne].
    + rewrite app_nil_r in Hs. unfold well_formed in *.
      assert (Hlen : List.length (dom (step ev this)) = List.length (dom this)).
      { rewrite <- (length_fmap skeleton), Hs. now rewrite length_fmap. }
      now rewrite Hlen, Hs.
    + assert (Hr : ev = EvRender).
      { destruct ev; try discriminate; try reflexivity; exfalso; apply Hne;
          apply (f_equal List.length) in Hs;
          rewrite length_app, !length_fmap in Hs.
        all: destruct extra; [reflexivity|exfalso].
        all: cbn [step] in Hs; cbn [List.length] in Hs.
        - unfold save in Hs.
          destruct (querySelector (ByTag "img") blockContent); cbn in Hs; lia.
        - assert (E : List.length (dom (onPaste event this)) =
                      List.length (dom this)).
          { rewrite <- !(length_fmap skeleton). f_equal.
            destruct event as [img|key pasted|file|type]; cbn [onPaste];
              [destruct (is_HTMLImageElement img)|..];
              try reflexivity; apply set_data_skeleton. }
          lia.
        - assert (E : List.length (dom (file_loaded i result this)) =
                      List.length (dom this)).
          { rewrite <- !(length_fmap skeleton). f_equal. unfold file_loaded.
            destruct (reading this !! i) as [file|]; [|reflexivity].
            destruct (onDropHandler file result); [|reflexivity].
            now rewrite set_data_skeleton. }
          lia.
        - assert (E : List.length (dom (set_data data0 this)) =
                      List.length (dom this)).
          { rewrite <- !(length_fmap skeleton). f_equal.
            apply set_data_skeleton. }
          lia.
        - assert (E : List.length (dom (_toggleTune n this)) =
                      List.length (dom this)).
          { rewrite <- !(length_fmap skeleton). f_equal. unfold _toggleTune.
            now rewrite acceptTuneView_skeleton. }
          lia.
        - assert (E : List.length (dom (image_error image this)) =
                      List.length (dom this)).
          { unfold image_error. destruct (dom this !! image) as [e|]; [|reflexivity].
            destruct (onerror e); reflexivity. }
          lia. }
      subst ev. cbn [step]. destruct (render_result this Hc) as (_ & _ & Hr).
      unfold well_formed in *.
      assert (Hlen : List.length (dom (snd (render this))) =
                     (List.length (dom this) + 5)%nat).
      { rewrite <- (length_fmap skeleton), Hr.
        now rewrite length_app, length_fmap. }
      rewrite Hlen, Hr. apply Forall_app. split.
      * eapply Forall_impl; [exact Hwf|]. intros s.
        apply sound_skeleton_mono. lia.
      * apply rendered_skeletons_sound.
Qed.

Lemma reachable_well_formed this : reachable this -> well_formed (dom this).
Proof.
  induction 1 as [|ev this _ IH]; [constructor|]. now apply step_well_formed.
Qed.

(** The assumptions of the theorems on tunes and on rendering hold in every
    reachable state. *)
Lemma reachable_closed this : reachable this -> closed (dom this).
Proof. intros H. now apply well_formed_closed, reachable_well_formed. Qed.

(* --------------------------------------------------------------------- *)
(** ** The paste pattern                                                   *)
(* --------------------------------------------------------------------- *)

Lemma append_assoc (a b c : string) : (a +:+ b) +:+ c = a +:+ b +:+ c.
Proof. induction a as [|x a IH]; simpl; [reflexivity|]. now rewrite IH. Qed.

Lemma append_nil_r (a : string) : a +:+ "" = a.
Proof. induction a as [|x a IH]; simpl; [reflexivity|]. now rewrite IH. Qed.

Lemma upper_case_app a b : upper_case (a +:+ b) = upper_case a +:+ upper_case b.
Proof. induction a as [|x a IH]; simpl; [reflexivity|]. now rewrite IH. Qed.

Lemma upper_case_split m w1 w2 :
  upper_case m = w1 +:+ w2 ->
  exists m1 m2, m = m1 +:+ m2 /\ upper_case m1 = w1 /\ upper_case m2 = w2.
Proof.
  revert m. induction w1 as [|c w1 IH]; intros m H.
  - exists "", m. auto.
  - destruct m as [|a m]; [discriminate|]. simpl in H. injection H as Ha H.
    destruct (IH m H) as (m1 & m2 & -> & H1 & H2).
    exists (String a m1), m2. simpl. rewrite Ha, H1. auto.
Qed.

Lemma elem_of_plus_runs ic cs s t :
  t ∈ plus_runs ic cs s <->
  exists m, s = m +:+ t /\ m <> "" /\ forall_chars (in_set ic cs) m = true.
Proof.
  revert t. induction s as [|c s IH]; intros t; simpl.
  - split; [intros H; inversion H|].
    intros ([|a m] & H & Hm & _); [congruence|discriminate].
  - destruct (in_set ic cs c) eqn:E.
    + rewrite elem_of_app, list_elem_of_singleton, IH. split.
      * intros [(m & -> & Hm & Hall)| ->].
        -- exists (String c m). simpl. rewrite E, Hall. repeat split. discriminate.
        -- exists (String c ""). simpl. rewrite E. repeat split. discriminate.
      * intros ([|a m] & H & Hm & Hall); [congruence|].
        simpl in H, Hall. injection H as <- ->.
        apply andb_true_iff in Hall as [_ Hall].
        destruct m as [|b m]; [right; reflexivity|].
        left. exists (String b m). repeat split; [discriminate|exact Hall].
    + split; [intros H; inversion H|].
      intros ([|a m] & H & Hm & Hall); [congruence|].
      simpl in H, Hall. injection H as <- ->. rewrite E in Hall. discriminate.
Qed.

(** The matcher and the texts of a pattern without [$]. *)
Lemma elem_of_matcher ic p :
  end_free p = true ->
  forall s t, t ∈ matcher ic p s <-> exists m, s = m +:+ t /\ lang ic p m.
Proof.
  induction p as [|cs|a IHa b IHb|a IHa b IHb|a IHa|cs|]; intros Hp s t;
    cbn [matcher lang end_free] in *; try discriminate.
  - rewrite list_elem_of_singleton. split.
    + intros ->. exists "". auto.
    + intros (m & -> & ->). reflexivity.
  - destruct s as [|c s].
    + split; [intros H; inversion H|].
      intros (m & H & c & -> & _). discriminate.
    + destruct (in_set ic cs c) eqn:E.
      * rewrite list_elem_of_singleton. split.
        -- intros ->. exists (String c ""). eauto.
        -- intros (m & H & c' & -> & _). simpl in H. congruence.
      * split; [intros H; inversion H|].
        intros (m & H & c' & -> & Hc). simpl in H. injection H as -> _.
        congruence.
  - apply andb_true_iff in Hp as [Ha Hb].
    rewrite list_elem_of_bind. split.
    + intros (u & Ht & Hu). apply (IHa Ha) in Hu as (m1 & -> & H1).
      apply (IHb Hb) in Ht as (m2 & -> & H2).
      exists (m1 +:+ m2). rewrite append_assoc. eauto 6.
    + intros (m & -> & m1 & m2 & -> & H1 & H2).
      exists (m2 +:+ t). split.
      * apply (IHb Hb). eauto.
      * apply (IHa Ha). exists m1. rewrite append_assoc. auto.
  - apply andb_true_iff in Hp as [Ha Hb].
    rewrite elem_of_app, (IHa Ha), (IHb Hb). split.
    + intros [(m & ? & ?)|(m & ? & ?)]; eauto.
    + intros (m & ? & [?|?]); eauto.
  - rewrite elem_of_app, list_elem_of_singleton, (IHa Hp). split.
    + intros [(m & ? & ?)| ->]; [eauto|]. exists "". auto.
    + intros (m & H & [?| ->]); [eauto|]. right. now simpl in H.
  - rewrite elem_of_plus_runs. split.
    + intros (m & ? & ? & ?). eauto.
    + intros (m & ? & ? & ?). eauto.
Qed.

Lemma elem_of_matcher_seq ic p q s t :
  end_free p = true ->
  t ∈ matcher ic (Seq p q) s <->
  exists m u, s = m +:+ u /\ lang ic p m /\ t ∈ matcher ic q u.
Proof.
  intros Hp. cbn [matcher]. rewrite list_elem_of_bind. split.
  - intros (u & Ht & Hu). apply (elem_of_matcher ic p Hp) in Hu as (m & -> & Hm).
    eauto.
  - intros (m & u & -> & Hm & Ht). exists u. split; [exact Ht|].
    apply (elem_of_matcher ic p Hp). eauto.
Qed.

Lemma elem_of_matcher_end ic s t :
  t ∈ matcher ic EndOfInput s <-> s = "" /\ t = "".
Proof.
  destruct s; cbn [matcher].
  - rewrite list_elem_of_singleton. intuition congruence.
  - split; [intros H; inversion H|]. intros [? _]. discriminate.
Qed.

Lemma text_end_free w : end_free (text w) = true.
Proof. induction w as [|c w IH]; [reflexivity|exact IH]. Qed.

(** Under the [i] flag a literal text matches the texts with the same
    letters. *)
Lemma lang_text w m : lang true (text w) m <-> upper_case m = upper_case w.
Proof.
  revert m. induction w as [|a w IH]; intros m; cbn [text lang upper_case].
  - destruct m; [intuition|]. split; discriminate.
  - split.
    + intros (m1 & m2 & -> & (c & -> & Hc) & H2). apply IH in H2.
      cbn in *. apply Ascii.eqb_eq in Hc. now rewrite H2, Hc.
    + destruct m as [|c m]; [discriminate|]. cbn. intros [= Hc Hm].
      exists (String c ""), m. split; [reflexivity|]. split; [|now apply IH].
      exists c. split; [reflexivity|]. cbn. rewrite Hc. apply Ascii.eqb_refl.
Qed.

Lemma canonicalize_not_letter c :
  is_upper (canonicalize c) = false -> canonicalize c = c.
Proof.
  destruct c as [[] [] [] [] [] [] [] []]; vm_compute; congruence.
Qed.

(** A text without letters has one spelling. *)
Lemma upper_case_fixed m w :
  upper_case m = w -> forall_chars (fun c => negb (is_upper c)) w = true -> m = w.
Proof.
  revert w. induction m as [|c m IH]; intros w <- H; [reflexivity|].
  cbn in *. apply andb_true_iff in H as [Hc H]. apply negb_true_iff in Hc.
  rewrite (canonicalize_not_letter c Hc).
  f_equal. now apply IH.
Qed.

Lemma lang_extension m :
  lang true
    (Alt (text "gif")
       (Alt (Seq (text "jp") (Seq (Opt (text "e")) (text "g")))
          (Alt (text "tiff") (Alt (text "png") (text "webp"))))) m <->
  upper_case m ∈ ["GIF"; "JPG"; "JPEG"; "TIFF"; "PNG"; "WEBP"].
Proof.
  cbn [lang]. rewrite !lang_text. cbn [upper_case].
  change (String (canonicalize "g") (String (canonicalize "i")
            (String (canonicalize "f") ""))) with "GIF".
  change (String (canonicalize "t") (String (canonicalize "i")
            (String (canonicalize "f") (String (canonicalize "f") ""))))
    with "TIFF".
  change (String (canonicalize "p") (String (canonicalize "n")
            (String (canonicalize "g") ""))) with "PNG".
  change (String (canonicalize "w") (String (canonicalize "e")
            (String (canonicalize "b") (String (canonicalize "p") ""))))
    with "WEBP".
  rewrite !elem_of_cons, elem_of_nil. split.
  - intros [H|[(m1 & m2 & -> & H1 & m3 & m4 & -> & H3 & H4)|[H|[H|H]]]]; auto 7.
    assert (E4 : upper_case m4 = "G") by (now apply lang_text in H4).
    assert (E1 : upper_case m1 = "JP") by (now apply lang_text in H1).
    rewrite !upper_case_app, E1, E4.
    destruct H3 as [H3| ->].
    + assert (E3 : upper_case m3 = "E") by (now apply lang_text in H3).
      rewrite E3. auto.
    + auto.
  - intros [H|[H|[H|[H|[H|[H|[]]]]]]]; auto 6.
    + right. left.
      destruct (upper_case_split m "JP" "G" H) as (m1 & m4 & -> & H1 & H4).
      exists m1, m4. split; [reflexivity|]. split; [now apply lang_text|].
      exists "", m4. split; [reflexivity|]. split; [now right|].
      now apply lang_text.
    + right. left.
      destruct (upper_case_split m "JP" "EG" H) as (m1 & m2 & -> & H1 & H2).
      destruct (upper_case_split m2 "E" "G" H2) as (m3 & m4 & -> & H3 & H4).
      exists m1, (m3 +:+ m4). split; [reflexivity|]. split; [now apply lang_text|].
      exists m3, m4. split; [reflexivity|]. split; [left; now apply lang_text|].
      now apply lang_text.
Qed.

(** What the paste pattern matches at the start of a text. *)
Lemma image_pattern_matcher s t :
  t ∈ matcher true (source image_pattern) s <-> t = "" /\ is_image_url s.
Proof.
  cbn [image_pattern pasteConfig patterns_image source].
  rewrite elem_of_matcher_seq by apply text_end_free.
  split.
  - intros (m1 & u1 & -> & H1 & Ht).
    apply elem_of_matcher_seq in Ht as (m2 & u2 & -> & H2 & Ht);
      [|reflexivity].
    apply elem_of_matcher_seq in Ht as (m3 & u3 & -> & H3 & Ht);
      [|reflexivity].
    apply elem_of_matcher_seq in Ht as (m4 & u4 & -> & H4 & Ht);
      [|reflexivity].
    apply elem_of_matcher_seq in Ht as (m5 & u5 & -> & H5 & Ht);
      [|reflexivity].
    apply elem_of_matcher_seq in Ht as (m6 & u6 & -> & H6 & Ht);
      [|reflexivity].
    apply elem_of_matcher_end in Ht as [-> ->].
    split; [reflexivity|].
    apply lang_text in H1, H3, H5. apply lang_extension in H6.
    apply upper_case_fixed in H3; [|reflexivity].
    apply upper_case_fixed in H5; [|reflexivity].
    subst m3 m5. destruct H4 as [H4 H4'].
    exists (m1 +:+ m2), m4, m6. rewrite append_nil_r, append_assoc.
    split; [reflexivity|]. split; [|auto].
    rewrite upper_case_app, H1.
    destruct H2 as [H2| ->]; [apply lang_text in H2; rewrite H2|]; auto.
  - intros (-> & scheme & rest & ext & -> & Hs & Hr & Hn & He).
    assert (Hsplit : exists m1 m2,
              scheme = m1 +:+ m2 /\ lang true (text "http") m1 /\
              lang true (Opt (text "s")) m2).
    { destruct Hs as [Hs|Hs].
      - exists scheme, "". rewrite append_nil_r. split; [reflexivity|].
        split; [now apply lang_text|now right].
      - destruct (upper_case_split scheme "HTTP" "S" Hs) as (m1 & m2 & -> & H1 & H2).
        exists m1, m2. split; [reflexivity|].
        split; [now apply lang_text|left; now apply lang_text]. }
    destruct Hsplit as (m1 & m2 & -> & H1 & H2).
    exists m1, (m2 +:+ "://" +:+ rest +:+ "." +:+ ext).
    rewrite append_assoc. split; [reflexivity|]. split; [exact H1|].
    apply elem_of_matcher_seq; [reflexivity|].
    exists m2, ("://" +:+ rest +:+ "." +:+ ext).
    split; [reflexivity|]. split; [exact H2|].
    apply elem_of_matcher_seq; [reflexivity|].
    exists "://", (rest +:+ "." +:+ ext).
    split; [reflexivity|]. split; [now apply lang_text|].
    apply elem_of_matcher_seq; [reflexivity|].
    exists rest, ("." +:+ ext).
    split; [reflexivity|]. split; [split; assumption|].
    apply elem_of_matcher_seq; [reflexivity|].
    exists ".", ext.
    split; [reflexivity|]. split; [now apply lang_text|].
    apply elem_of_matcher_seq; [reflexivity|].
    exists ext, "". rewrite append_nil_r.
    split; [reflexivity|]. split; [now apply lang_extension|].
    now apply elem_of_matcher_end.
Qed.

(** [exec] finds the first suffix at whose start the pattern matches. *)
Lemma exec_at_start re s :
  (exists rest, exec re s = Some (0%nat, rest)) <->
  (exists t, t ∈ matcher (ignoreCase re) (source re) s).
Proof.
  destruct s as [|c s]; cbn [exec];
    destruct (matcher (ignoreCase re) (source re) _) as [|r l] eqn:E.
  - split; [intros [? ?]; discriminate|]. intros [t Ht]. inversion Ht.
  - split; [|eauto]. intros _. exists r. left.
  - split.
    + intros [rest H]. destruct (exec re s) as [[i r]|]; discriminate.
    + intros [t Ht]. inversion Ht.
  - split; [|eauto]. intros _. exists r. left.
Qed.

Lemma test_suffix re s :
  test re s = true <->
  exists pre u t, s = pre +:+ u /\ t ∈ matcher (ignoreCase re) (source re) u.
Proof.
  unfold test. induction s as [|c s IH]; cbn [exec];
    destruct (matcher (ignoreCase re) (source re) _) as [|r l] eqn:E.
  - split; [discriminate|].
    intros ([|? ?] & u & t & H & Ht); [|discriminate].
    cbn in H. subst u. rewrite E in Ht. inversion Ht.
  - split; [|reflexivity]. intros _. exists "", "", r. rewrite E.
    split; [reflexivity|left].
  - destruct (exec re s) as [[i r]|].
    + split; [|reflexivity]. intros _.
      destruct (proj1 IH eq_refl) as (pre & u & t & -> & Ht).
      exists (String c pre), u, t. auto.
    + split; [discriminate|].
      intros ([|a pre] & u & t & H & Ht).
      * cbn in H. subst u. rewrite E in Ht. inversion Ht.
      * cbn in H. injection H as _ ->.
        assert (false = true); [|discriminate]. apply IH. eauto.
  - split; [|reflexivity]. intros _. exists "", (String c s), r. rewrite E.
    split; [reflexivity|left].
Qed.

(** C7, as the code has it: the paste pattern is not anchored at the start,
    so it finds a match in a text exactly when the text ends with an http or
    https URL, in any case, with at least one character and no white space
    after [://], then a dot and one of gif, jpg, jpeg, tiff, png, webp in any
    case; the match starts at the first character, and is then the whole
    text, exactly when the text is such a URL; [pasteConfig] also registers
    the tag img with its attribute src and the mime types image/*. *)
Theorem C7_paste_pattern :
  (forall s,
     test (patterns_image pasteConfig) s = true <->
     exists pre u, s = pre +:+ u /\ is_image_url u) /\
  (forall s,
     exec (patterns_image pasteConfig) s = Some (0%nat, "") <-> is_image_url s) /\
  tags pasteConfig = [("img", [("src", true)])] /\
  files_mimeTypes pasteConfig = ["image/*"].
Proof.
  split; [|split; [|split; reflexivity]].
  - intros s. fold image_pattern. rewrite test_suffix. split.
    + intros (pre & u & t & -> & Ht).
      apply image_pattern_matcher in Ht as [_ Hu]. eauto.
    + intros (pre & u & -> & Hu). exists pre, u, "". split; [reflexivity|].
      now apply image_pattern_matcher.
  - intros s. fold image_pattern. split.
    + intros H. destruct (proj1 (exec_at_start image_pattern s)) as [t Ht]; [eauto|].
      now apply image_pattern_matcher in Ht.
    + intros Hu.
      destruct (proj2 (exec_at_start image_pattern s)) as [rest Hrest].
      * exists "". now apply image_pattern_matcher.
      * rewrite Hrest. do 2 f_equal.
        assert (Hin : rest ∈ matcher true (source image_pattern) s).
        { change true with (ignoreCase image_pattern).
          destruct s as [|c s]; cbn [exec] in Hrest;
            destruct (matcher (ignoreCase image_pattern) (source image_pattern) _)
              as [|r l]; try discriminate;
            try (destruct (exec image_pattern s) as [[i r]|]; discriminate);
            injection Hrest as <-; left. }
        now apply image_pattern_matcher in Hin.
Qed.

(** C7 fails as stated: a text that only ends with an image URL is matched. *)
Lemma C7_pattern_matches_a_suffix :
  ~ (forall s, test (patterns_image pasteConfig) s = true <-> is_image_url s).
Proof.
  intros H.
  assert (Hu : is_image_url "see http://h/a.gif") by (now apply H).
  assert (Hm : "" ∈ matcher true (source image_pattern) "see http://h/a.gif")
    by (now apply image_pattern_matcher).
  vm_compute in Hm. inversion Hm.
Qed.

(* --------------------------------------------------------------------- *)
(** ** More on decodeHTMLEntities                                          *)
(* --------------------------------------------------------------------- *)

Lemma replace_length pat r s :
  truthy pat = true ->
  String.length (replace pat (String r "") s) <= String.length s.
Proof.
  intros Hp. apply (Replaced_length pat r Hp). now apply replace_Replaced.
Qed.

Lemma replace_shorter pat r s :
  truthy pat = true -> 2 <= String.length pat -> includes s pat = true ->
  String.length (replace pat (String r "") s) < String.length s.
Proof.
  intros Hp Hl Hi.
  apply (Replaced_shorter pat r Hp s); [now apply replace_Replaced|assumption..].
Qed.

Lemma decode_chain_length s :
  String.length (decode_chain s) <= String.length s.
Proof.
  unfold decode_chain.
  pose proof (replace_length "&amp;" "&" s eq_refl).
  pose proof (replace_length "&lt;" "<" (replace "&amp;" "&" s) eq_refl).
  pose proof (replace_length "&gt;" ">"
                (replace "&lt;" "<" (replace "&amp;" "&" s)) eq_refl).
  pose proof (replace_length "&quot;" "034"
                (replace "&gt;" ">" (replace "&lt;" "<" (replace "&amp;" "&" s)))
                eq_refl).
  pose proof (replace_length "&#039;" "039"
                (replace "&quot;" quot
                   (replace "&gt;" ">"
                      (replace "&lt;" "<" (replace "&amp;" "&" s)))) eq_refl).
  unfold quot, apos in *. lia.
Qed.

(** X1: decoding never makes a text longer. *)
Theorem X1_decode_never_longer s :
  String.length (decodeHTMLEntities s) <= String.length s.
Proof. rewrite decode_is_chain. apply decode_chain_length. Qed.

(** One substitution either leaves the text as it is or shortens it. *)
Lemma replace_same_or_shorter pat r s :
  truthy pat = true -> 2 <= String.length pat ->
  (includes s pat = false /\ replace pat (String r "") s = s) \/
  (includes s pat = true /\
   String.length (replace pat (String r "") s) < String.length s).
Proof.
  intros Hp Hl. destruct (includes s pat) eqn:E.
  - right. split; [reflexivity|]. now apply replace_shorter.
  - left. split; [reflexivity|]. now apply replace_absent.
Qed.

Lemma decode_chain_unchanged s :
  decode_chain s = s <-> entity_free s = true.
Proof.
  unfold entity_free, entities. cbn [forallb].
  rewrite !andb_true_iff, !negb_true_iff. split.
  - intros Heq. apply (f_equal String.length) in Heq. unfold decode_chain in Heq.
    destruct (replace_same_or_shorter "&amp;" "&" s eq_refl ltac:(simpl; lia))
      as [[A E1]|[A1 _]].
    2:{ pose proof (decode_chain_shorter s A1) as H. unfold decode_chain in H.
        lia. }
    rewrite E1 in Heq.
    destruct (replace_same_or_shorter "&lt;" "<" s eq_refl ltac:(simpl; lia))
      as [[L E2]|[_ L2]].
    2:{ pose proof (replace_length "&gt;" ">" (replace "&lt;" "<" s) eq_refl).
        pose proof (replace_length "&quot;" "034"
                      (replace "&gt;" ">" (replace "&lt;" "<" s)) eq_refl).
        pose proof (replace_length "&#039;" "039"
                      (replace "&quot;" quot
                         (replace "&gt;" ">" (replace "&lt;" "<" s))) eq_refl).
        unfold quot, apos in *. lia. }
    rewrite E2 in Heq.
    destruct (replace_same_or_shorter "&gt;" ">" s eq_refl ltac:(simpl; lia))
      as [[G E3]|[_ L3]].
    2:{ pose proof (replace_length "&quot;" "034" (replace "&gt;" ">" s) eq_refl).
        pose proof (replace_length "&#039;" "039"
                      (replace "&quot;" quot (replace "&gt;" ">" s)) eq_refl).
        unfold quot, apos in *. lia. }
    rewrite E3 in Heq.
    destruct (replace_same_or_shorter "&quot;" "034" s eq_refl ltac:(simpl; lia))
      as [[Q E4]|[_ L4]].
    2:{ pose proof (replace_length "&#039;" "039" (replace "&quot;" quot s) eq_refl).
        unfold quot, apos in *. lia. }
    fold quot in E4. rewrite E4 in Heq.
    destruct (replace_same_or_shorter "&#039;" "039" s eq_refl ltac:(simpl; lia))
      as [[P E5]|[_ L5]].
    2:{ unfold apos in *. lia. }
    repeat split; assumption.
  - intros (A & L & G & Q & P & _). now apply decode_chain_fixed.
Qed.

(** X2: decoding changes a text exactly when the text holds one of the five
    entities. *)
Theorem X2_decode_changes_entities_only s :
  decodeHTMLEntities s = s <-> entity_free s = true.
Proof. rewrite decode_is_chain. apply decode_chain_unchanged. Qed.

(** An [&amp;] in the result of the first substitution comes from a doubly
    encoded ampersand. *)
Lemma Replaced_amp_left s out :
  Replaced "&amp;" "&" s out ->
  includes out "&amp;" = true -> includes s "&amp;amp;" = true.
Proof.
  assert (tail : forall c o s0,
            startsWith "&amp;" (String c o) = Some s0 ->
            c = "&"%char /\ startsWith "amp;" o <> None).
  { intros c o s0 E. apply startsWith_app in E. cbn [String.append] in E.
    injection E as -> ->. split; [reflexivity|]. cbn. discriminate. }
  induction 1 as [|s rest out Hs H IH|c s out Hs H IH]; intros Hi.
  - cbn in Hi. discriminate.
  - apply startsWith_app in Hs as ->. cbn [String.append] in Hi.
    destruct (startsWith "&amp;" (String "&" out)) as [s0|] eqn:E.
    + destruct (tail _ _ _ E) as [_ Ho].
      apply (Replaced_startsWith "&amp;" "&" rest out H "amp;" eq_refl) in Ho.
      destruct (startsWith "amp;" rest) as [t|] eqn:Er; [|congruence].
      apply startsWith_app in Er as ->. reflexivity.
    + rewrite includes_cons in Hi by exact E.
      apply (includes_app_l "&amp;"). now apply IH.
  - destruct (startsWith "&amp;" (String c out)) as [s0|] eqn:E.
    + exfalso. destruct (tail _ _ _ E) as [-> Ho].
      apply (Replaced_startsWith "&amp;" "&" s out H "amp;" eq_refl) in Ho.
      destruct (startsWith "amp;" s) as [t|] eqn:Er; [|congruence].
      apply startsWith_app in Er as ->. discriminate.
    + rewrite includes_cons in Hi by exact E.
      apply (includes_app_l (String c "")). now apply IH.
Qed.

Lemma decode_chain_amp_left s :
  includes (decode_chain s) "&amp;" = true -> includes s "&amp;amp;" = true.
Proof.
  unfold decode_chain. intros H.
  assert (back : forall pat r a,
            truthy pat = true -> has_char r "&amp;" = false ->
            includes (replace pat (String r "") a) "&amp;" = true ->
            includes a "&amp;" = true).
  { intros pat r a Hp Hr Ha.
    exact (Replaced_includes pat r a _ (replace_Replaced _ _ _ Hp)
             "&amp;" eq_refl Hr Ha). }
  apply back in H; [|reflexivity..].
  apply back in H; [|reflexivity..].
  apply back in H; [|reflexivity..].
  apply back in H; [|reflexivity..].
  apply (Replaced_amp_left s _ (replace_Replaced "&amp;" "&" s eq_refl) H).
Qed.

(** X3: a decoded text holds none of [&lt;], [&gt;], [&quot;] and [&#039;];
    it holds an [&amp;] only when the input held a doubly encoded ampersand,
    [&amp;amp;]. *)
Theorem X3_decoded_text_is_clean s :
  includes (decodeHTMLEntities s) "&lt;" = false /\
  includes (decodeHTMLEntities s) "&gt;" = false /\
  includes (decodeHTMLEntities s) "&quot;" = false /\
  includes (decodeHTMLEntities s) "&#039;" = false /\
  (includes (decodeHTMLEntities s) "&amp;" = true ->
   includes s "&amp;amp;" = true).
Proof.
  rewrite decode_is_chain.
  destruct (decode_chain_clean s) as (L & G & Q & P).
  repeat split; try assumption. apply decode_chain_amp_left.
Qed.

(* --------------------------------------------------------------------- *)
(** ** More on the data setter, the constructor and save                   *)
(* --------------------------------------------------------------------- *)





Lemma constructor_data data0 api0 readOnly0 :
  data (constructor data0 api0 readOnly0) =
  {| url := Some (decodeHTMLEntities (or_empty (url data0)));
     caption := Some (or_empty (caption data0));
     withBorder := Some (or_false (withBorder data0));
     withBackground := Some (or_false (withBackground data0));
     stretched := Some (or_false (stretched data0)) |}.
Proof.
  unfold constructor.
  change (data (with_tunes ?l ?t)) with (data t).
  rewrite set_data_data. reflexivity.
Qed.

Lemma or_empty_idem v : or_empty (Some (or_empty v)) = or_empty v.
Proof. apply or_empty_Some. Qed.

(** X6: the data of a tool can be given to a new tool: the new tool stores
    the same data exactly when the stored url holds no [&amp;], which the
    constructor would decode once more. *)
Theorem X6_stored_data_reloads data0 api0 readOnly0 api1 readOnly1 :
  data (constructor (data (constructor data0 api0 readOnly0)) api1 readOnly1) =
  data (constructor data0 api0 readOnly0) <->
  includes (decodeHTMLEntities (or_empty (url data0))) "&amp;" = false.
Proof.
  rewrite (constructor_data (data _)), !constructor_data.
  cbn [url caption withBorder withBackground stretched or_false].
  rewrite !or_empty_Some.
  set (u := decodeHTMLEntities (or_empty (url data0))).
  assert (Hu : decodeHTMLEntities u = u <-> includes u "&amp;" = false).
  { rewrite decode_is_chain, decode_chain_unchanged.
    unfold entity_free, entities. cbn [forallb].
    rewrite !andb_true_iff, !negb_true_iff.
    subst u. rewrite decode_is_chain.
    destruct (decode_chain_clean (or_empty (url data0))) as (L & G & Q & P).
    intuition. }
  split.
  - intros [= H]. now apply Hu.
  - intros H. apply Hu in H. now rewrite H.
Qed.

Lemma with_data_same this : with_data (data this) this = this.
Proof. destruct this; reflexivity. Qed.

(** X7: [save] changes the stored data and nothing else of the tool; it
    never changes the three flags; and to save the same block content once
    more gives the same record and changes nothing. *)
Theorem X7_save_frame_and_idempotent blockContent this :
  snd (save blockContent this) = with_data (fst (save blockContent this)) this /\
  withBorder (fst (save blockContent this)) = withBorder (data this) /\
  withBackground (fst (save blockContent this)) = withBackground (data this) /\
  stretched (fst (save blockContent this)) = stretched (data this) /\
  save blockContent (snd (save blockContent this)) = save blockContent this.
Proof.
  rewrite !save_result.
  destruct (first_image blockContent) as [image|]; cbn [fst snd].
  - repeat split; reflexivity.
  - repeat split; try reflexivity. now rewrite with_data_same.
Qed.

(* --------------------------------------------------------------------- *)
(** ** More on tunes and on the settings menu                              *)
(* --------------------------------------------------------------------- *)

Lemma acceptTuneView_fold this :
  _acceptTuneView this = foldl accept_tune this (tunes this).
Proof. reflexivity. Qed.

Lemma accept_tune_same_object this t : same_object this (accept_tune this t).
Proof.
  unfold accept_tune, same_object.
  destruct (String.eqb _ _), (nodes_imageHolder (nodes this)); repeat split.
Qed.

Lemma same_object_trans a b c :
  same_object a b -> same_object b c -> same_object a c.
Proof.
  unfold same_object. intros H1 H2.
  destruct H1 as (A1 & A2 & A3 & A4 & A5 & A6 & A7 & A8).
  destruct H2 as (B1 & B2 & B3 & B4 & B5 & B6 & B7 & B8).
  repeat split; congruence.
Qed.

(** What [_acceptTuneView] leaves as it is, whatever the tunes are. *)
Lemma acceptTuneView_same_object this : same_object this (_acceptTuneView this).
Proof.
  rewrite acceptTuneView_fold. generalize (tunes this) as l. intros l.
  revert this. induction l as [|t l IH]; intros this; [repeat split|].
  cbn [foldl]. eapply same_object_trans; [apply accept_tune_same_object|apply IH].
Qed.

Lemma toggleTune_data n this :
  data (_toggleTune n this) =
  set_flag n (negb (to_boolean (get_flag n (data this)))) (data this).
Proof. unfold _toggleTune. now rewrite (proj1 (acceptTuneView_same_object _)). Qed.

(** X8: to toggle a tune twice gives back the data: the record is the one
    before when the flag was defined, and otherwise differs only in that the
    flag, which was undefined, is false. *)
Theorem X8_toggle_twice n this :
  data (_toggleTune n (_toggleTune n this)) =
    set_flag n (to_boolean (get_flag n (data this))) (data this) /\
  match get_flag n (data this) with
  | Some _ => data (_toggleTune n (_toggleTune n this)) = data this
  | None => get_flag n (data (_toggleTune n (_toggleTune n this))) = Some false
  end.
Proof.
  rewrite !toggleTune_data.
  destruct (data this) as [u c b g s]. 
  destruct n; cbn; [destruct b as [[]|]|destruct s as [[]|]|destruct g as [[]|]];
    split; reflexivity.
Qed.

Lemma filter_all {A} (P : A -> Prop) `{forall x, Decision (P x)} (l : list A) :
  Forall P l -> filter P l = l.
Proof.
  induction 1 as [|x l Hx _ IH]; [reflexivity|].
  rewrite filter_cons_True by exact Hx. now rewrite IH.
Qed.

(** A toggle that asks for what is the case changes nothing. *)
Lemma token_toggle_noop (c : string) (force : bool) (l : list string) :
  (c ∈ l <-> force = true) -> token_toggle c force l = l.
Proof.
  intros H. unfold token_toggle, token_add, token_remove. destruct force.
  - rewrite bool_decide_eq_true_2; [reflexivity|]. now apply H.
  - apply filter_all, Forall_forall. intros x Hx ->.
    apply H in Hx. discriminate.
Qed.

Lemma toggles_fixed (c1 c2 c3 : string) (b1 b2 b3 : bool) (l : list string) :
  c1 <> c2 -> c1 <> c3 -> c2 <> c3 ->
  let l' := token_toggle c3 b3 (token_toggle c2 b2 (token_toggle c1 b1 l)) in
  token_toggle c3 b3 (token_toggle c2 b2 (token_toggle c1 b1 l')) = l'.
Proof.
  intros H12 H13 H23 l'.
  assert (M1 : c1 ∈ l' <-> b1 = true).
  { subst l'. rewrite !elem_of_token_toggle. intuition congruence. }
  assert (M2 : c2 ∈ l' <-> b2 = true).
  { subst l'. rewrite !elem_of_token_toggle. intuition congruence. }
  assert (M3 : c3 ∈ l' <-> b3 = true).
  { subst l'. rewrite !elem_of_token_toggle. intuition congruence. }
  rewrite (token_toggle_noop c1 b1 l' M1), (token_toggle_noop c2 b2 l' M2).
  now apply token_toggle_noop.
Qed.

(** X9: with the tunes of the constructor, [_acceptTuneView] brings the
    classes of the image holder in line with the flags in one go: a second
    call changes no element; each call makes one call of [stretchBlock]. *)
Theorem X9_acceptTuneView_settles this :
  tunes this = image_tunes ->
  dom (_acceptTuneView (_acceptTuneView this)) = dom (_acceptTuneView this) /\
  calls (_acceptTuneView this) =
    calls this ++
    [StretchBlock (blockIndex this) (to_boolean (stretched (data this)))].
Proof.
  intros Ht.
  destruct (acceptTuneView_same_object this) as (Hd & Hn & Hc & _ & _ & _ & _ & Hu).
  assert (Ht' : tunes (_acceptTuneView this) = image_tunes) by congruence.
  rewrite (acceptTuneView_image_tunes (_acceptTuneView this) Ht').
  cbn [dom call with_dom]. rewrite Hn, Hd.
  change (modifier (_acceptTuneView this)) with
    (fun n => css_imageHolder (CSS (_acceptTuneView this)) +:+ "--" +:+
              dashed (tune_name n)).
  cbv beta. rewrite Hc. fold (modifier this TuneWithBorder).
  fold (modifier this TuneStretched). fold (modifier this TuneWithBackground).
  rewrite (acceptTuneView_image_tunes this Ht). cbn [dom call with_dom calls].
  split; [|reflexivity].
  destruct (nodes_imageHolder (nodes this)) as [holder|]; [|reflexivity].
  unfold classList_toggle. rewrite !list_alter_alter_eq.
  apply list_alter_ext; [|reflexivity].
  intros e _. unfold compose, with_props, set_classList. cbn.
  f_equal. f_equal.
  apply toggles_fixed; intros H; apply modifier_inj in H; discriminate.
Qed.

Lemma X9_acceptTuneView_settles_witness :
  tunes rendered_tool = image_tunes /\
  dom (_acceptTuneView (_acceptTuneView rendered_tool)) =
  dom (_acceptTuneView rendered_tool).
Proof.
  split; [reflexivity|].
  exact (proj1 (X9_acceptTuneView_settles rendered_tool eq_refl)).
Defined.

(** X10: with the tunes of the constructor, the settings menu has the three
    entries withBorder, stretched and withBackground, in this order, with
    translated labels, each a toggle that is active when its flag is true; to
    activate an entry flips the activity of that entry and of no other. *)
Theorem X10_renderSettings t this :
  tunes this = image_tunes ->
  map setting_name (renderSettings t this) =
    ["withBorder"; "stretched"; "withBackground"] /\
  map setting_label (renderSettings t this) =
    [t "Add Border"; t "Stretch Image"; t "Add Background"] /\
  map toggle (renderSettings t this) = [true; true; true] /\
  map isActive (renderSettings t this) =
    [to_boolean (withBorder (data this)); to_boolean (stretched (data this));
     to_boolean (withBackground (data this))] /\
  (forall k entry,
     renderSettings t this !! k = Some entry ->
     map isActive (renderSettings t (onActivate entry this)) =
     alter negb k (map isActive (renderSettings t this))).
Proof.
  intros Ht. unfold renderSettings. rewrite Ht.
  repeat split.
  intros k entry Hk.
  assert (Hu : forall n, tunes (_toggleTune n this) = image_tunes).
  { intros n. unfold _toggleTune. rewrite acceptTuneView_tunes. exact Ht. }
  destruct k as [|[|[|k]]]; cbn in Hk; try discriminate;
    injection Hk as <-; cbn [onActivate]; rewrite Hu; cbn [map];
    rewrite toggleTune_data; destruct (data this) as [u c b g s]; reflexivity.
Qed.

Lemma X10_renderSettings_witness :
  tunes example_tool = image_tunes /\
  map isActive (renderSettings id example_tool) = [true; false; false].
Proof.
  split; [reflexivity|].
  destruct (X10_renderSettings id example_tool eq_refl) as (_ & _ & _ & H & _).
  rewrite H. reflexivity.
Defined.

(* --------------------------------------------------------------------- *)
(** ** More on _make and render                                            *)
(* --------------------------------------------------------------------- *)

Lemma alter_last {A} (f : A -> A) (l : list A) (x : A) :
  alter f (List.length l) (l ++ [x]) = l ++ [f x].
Proof. now rewrite (alter_app_from f l [x] (List.length l) 0) by lia. Qed.

(** [_make] appends one element to the store. *)
Lemma make_result tagName classNames attributes (d : Dom) :
  _make tagName classNames attributes d =
  (List.length d,
   d ++ [with_props
           (fun p =>
              foldl (fun p a => set_attribute a p)
                (set_classList
                   (fun l => foldl (fun l c => token_add c l) l
                               (class_names classNames)) p)
                attributes)
           (new_element tagName)]).
Proof.
  unfold _make, createElement. fold (new_element tagName). f_equal.
  set (e0 := with_props
               (set_classList
                  (fun l => foldl (fun l c => token_add c l) l
                              (class_names classNames)))
               (new_element tagName)).
  assert (H0 : match classNames with
               | ClassArray l =>
                   classList_add (List.length d) l (d ++ [new_element tagName])
               | ClassName c =>
                   if truthy c
                   then classList_add (List.length d) [c] (d ++ [new_element tagName])
                   else d ++ [new_element tagName]
               | NoClassNames => d ++ [new_element tagName]
               end = d ++ [e0]).
  { subst e0. unfold classList_add.
    destruct classNames as [l|c|]; cbn [class_names];
      [|destruct (truthy c)|]; rewrite ?alter_last; reflexivity. }
  rewrite H0. clear H0.
  change (with_props _ (new_element tagName)) with
    (with_props (fun p => foldl (fun p a => set_attribute a p) p attributes) e0).
  generalize e0. clear e0.
  induction attributes as [|a attributes IH]; intros e0.
  - cbn [foldl]. now destruct e0.
  - cbn [foldl]. rewrite alter_last, IH. reflexivity.
Qed.




Lemma props_alter_props f i (d : Dom) :
  props <$> alter (with_props f) i d = alter f i (props <$> d).
Proof. now apply fmap_alter_commute. Qed.

Lemma props_alter_handlers l r i (d : Dom) :
  props <$> alter (with_handlers l r) i d = props <$> d.
Proof.
  rewrite (fmap_alter_commute props (with_handlers l r) id) by reflexivity.
  now apply list_alter_id.
Qed.

Lemma props_appendChild p c (d : Dom) :
  props <$> appendChild p c d = props <$> d.
Proof.
  unfold appendChild, remove_node.
  rewrite (fmap_alter_commute props _ id) by reflexivity.
  rewrite list_alter_id by reflexivity.
  induction d as [|e d IH]; [reflexivity|]. cbn. now rewrite <- IH.
Qed.

Lemma render_props this :
  props <$> dom (snd (render this)) =
  (props <$> dom this) ++ rendered_props this.
Proof.
  unfold render. rewrite !make_result. cbv beta iota zeta.
  cbn [snd dom with_nodes with_dom].
  rewrite props_alter_handlers.
  set (n := List.length (dom this)).
  assert (Hn : List.length (props <$> dom this) = n) by now rewrite length_fmap.
  rewrite !length_app. cbn [List.length]. fold n.
  assert (E : forall (D : Dom),
            props <$> (match url (data this) with
                       | Some u =>
                           if truthy u
                           then alter (with_props (set_src u)) (n + 1 + 1 + 1) D
                           else D
                       | None => D
                       end) =
            alter (fun p => if truthy (or_empty (url (data this)))
                            then set_src (or_empty (url (data this))) p else p)
              (n + 3) (props <$> D)).
  { intros D. replace (n + 1 + 1 + 1)%nat with (n + 3)%nat by lia.
    destruct (url (data this)) as [u|]; cbn [or_empty truthy].
    - destruct (truthy u) eqn:T; rewrite ?T, ?props_alter_props; [reflexivity|].
      cbn [truthy]. now rewrite list_alter_id.
    - now rewrite list_alter_id. }
  rewrite E. clear E.
  rewrite props_appendChild, props_alter_props.
  rewrite !fmap_app, <- !app_assoc. cbn [fmap list_fmap app].
  rewrite (alter_app_from _ (props <$> dom this) _ (n + 1 + 1 + 1 + 1) 4) by lia.
  rewrite (alter_app_from _ (props <$> dom this) _ (n + 3) 3) by lia.
  f_equal. unfold rendered_props, tokens.
  cbn [alter list_alter props with_props new_element foldl set_attribute
       class_names].
  repeat f_equal.
  destruct (url (data this)) as [[|a u]|]; reflexivity.
Qed.


(* --------------------------------------------------------------------- *)
(** ** Invariants of the reachable states                                  *)
(* --------------------------------------------------------------------- *)

Lemma decode_clean u :
  includes (decodeHTMLEntities u) "&lt;" = false /\
  includes (decodeHTMLEntities u) "&gt;" = false /\
  includes (decodeHTMLEntities u) "&quot;" = false /\
  includes (decodeHTMLEntities u) "&#039;" = false.
Proof. rewrite decode_is_chain. apply decode_chain_clean. Qed.

Lemma set_data_ok d this : data_ok (data this) -> data_ok (data (set_data d this)).
Proof.
  intros ((u & Hu & Hclean) & Hc & Hb & Hg & Hs).
  rewrite set_data_data. unfold data_ok, assign. cbn.
  split; [|split; [|split; [|split]]].
  - destruct (url d) as [v|]; cbn.
    + exists (decodeHTMLEntities v). split; [reflexivity|apply decode_clean].
    + exists u. auto.
  - destruct (caption d); cbn; eauto.
  - destruct (withBorder d); cbn; eauto.
  - destruct (withBackground d); cbn; eauto.
  - destruct (stretched d); cbn; eauto.
Qed.

Lemma step_data_ok ev this : data_ok (data this) -> data_ok (data (step ev this)).
Proof.
  intros Hok.
  destruct ev as [|blockContent|event|i result|d|n|image|image]; cbn [step].
  - exact Hok.
  - rewrite save_result. destruct (first_image blockContent) as [img|];
      [|exact Hok].
    destruct Hok as (_ & _ & Hb & Hg & Hs). cbn. unfold data_ok. cbn.
    split; [|eauto]. eexists. split; [reflexivity|apply decode_clean].
  - destruct event as [img|key pasted|file|type]; cbn [onPaste];
      [destruct (is_HTMLImageElement img)|..];
      try exact Hok; now apply set_data_ok.
  - unfold file_loaded. destruct (reading this !! i) as [file|]; [|exact Hok].
    destruct (onDropHandler file result); [|exact Hok]. now apply set_data_ok.
  - now apply set_data_ok.
  - rewrite toggleTune_data.
    destruct Hok as (Hu & Hc & Hb & Hg & Hs). unfold data_ok.
    destruct n; cbn; eauto 10.
  - unfold image_load. destruct (dom this !! image) as [e|]; [|exact Hok].
    destruct (onload e); [|exact Hok]. unfold run_onload.
    now rewrite (proj1 (acceptTuneView_same_object _)).
  - unfold image_error. destruct (dom this !! image) as [e|]; [|exact Hok].
    destruct (onerror e); exact Hok.
Qed.

(** X13: in every state that the host can bring a tool into, the stored
    record has all five properties, and its url holds none of [&lt;], [&gt;],
    [&quot;] and [&#039;]. *)
Theorem X13_stored_data_is_complete this :
  reachable this ->
  (exists u, url (data this) = Some u /\
             includes u "&lt;" = false /\ includes u "&gt;" = false /\
             includes u "&quot;" = false /\ includes u "&#039;" = false) /\
  is_Some (caption (data this)) /\ is_Some (withBorder (data this)) /\
  is_Some (withBackground (data this)) /\ is_Some (stretched (data this)).
Proof.
  induction 1 as [data0 api0 readOnly0|ev this _ IH].
  - rewrite constructor_data. cbn. split; [|eauto].
    eexists. split; [reflexivity|apply decode_clean].
  - now apply (step_data_ok ev this).
Qed.

Lemma X13_stored_data_is_complete_witness :
  reachable (run example_events rendered_tool) /\
  is_Some (caption (data (run example_events rendered_tool))).
Proof.
  assert (R : reachable (run example_events rendered_tool)).
  { unfold example_events, run. cbn [foldl].
    repeat apply reachable_step.
    change rendered_tool with (step EvRender example_tool).
    apply reachable_step, reachable_new. }
  split; [exact R|].
  exact (proj1 (proj2 (X13_stored_data_is_complete _ R))).
Defined.

(** No event changes what the constructor read from its parameters. *)
Lemma step_config ev this :
  api (step ev this) = api this /\ readOnly (step ev this) = readOnly this /\
  blockIndex (step ev this) = blockIndex this /\ CSS (step ev this) = CSS this.
Proof.
  assert (so : forall t, same_object this t ->
            api t = api this /\ readOnly t = readOnly this /\
            blockIndex t = blockIndex this /\ CSS t = CSS this).
  { intros t (_ & _ & H3 & H4 & H5 & H6 & _). auto. }
  assert (sd : forall d t,
            api t = api this /\ readOnly t = readOnly this /\
            blockIndex t = blockIndex this /\ CSS t = CSS this ->
            api (set_data d t) = api this /\
            readOnly (set_data d t) = readOnly this /\
            blockIndex (set_data d t) = blockIndex this /\
            CSS (set_data d t) = CSS this).
  { intros d t (H1 & H2 & H3 & H4).
    destruct (set_data_frame d t) as (E1 & E2 & E3 & E4 & _).
    rewrite E1, E2, E3, E4. auto. }
  destruct ev as [|blockContent|event|i result|d|n|image|image]; cbn [step].
  - repeat split.
  - unfold save. destruct (querySelector (ByTag "img") blockContent); repeat split.
  - destruct event as [img|key pasted|file|type]; cbn [onPaste];
      [destruct (is_HTMLImageElement img)|..];
      try (apply sd); repeat split.
  - unfold file_loaded. destruct (reading this !! i) as [file|]; [|repeat split].
    destruct (onDropHandler file result); [|repeat split].
    apply sd. repeat split.
  - apply sd. repeat split.
  - unfold _toggleTune.
    destruct (acceptTuneView_same_object
                (with_data (set_flag n (negb (to_boolean (get_flag n (data this))))
                              (data this)) this))
      as (_ & _ & H3 & H4 & H5 & H6 & _).
    rewrite H3, H4, H5, H6. repeat split.
  - unfold image_load. destruct (dom this !! image) as [e|]; [|repeat split].
    destruct (onload e) as [h|]; [|repeat split]. unfold run_onload.
    match goal with |- context [_acceptTuneView ?t] =>
      destruct (acceptTuneView_same_object t) as (_ & _ & H3 & H4 & H5 & H6 & _)
    end.
    rewrite H3, H4, H5, H6. repeat split.
  - unfold image_error. destruct (dom this !! image) as [e|]; [|repeat split].
    destruct (onerror e); repeat split.
Qed.

Lemma reachable_blockIndex this :
  reachable this ->
  blockIndex this = (getCurrentBlockIndex (api this) + 1)%Z.
Proof.
  induction 1 as [data0 api0 readOnly0|ev this _ IH]; [reflexivity|].
  destruct (step_config ev this) as (H1 & _ & H3 & _). now rewrite H1, H3.
Qed.

(** X14: what the constructor derives from its parameters never changes: in
    every reachable state the block index is the host's current block index
    at construction plus one, the classes are the ones of the host's styles
    and of the tool, and the tunes are the three of the constructor. *)
Theorem X14_configuration_is_constant this :
  reachable this ->
  blockIndex this = (getCurrentBlockIndex (api this) + 1)%Z /\
  CSS this =
    {| css_baseClass := styles_block (api this);
       css_loading := styles_loader (api this);
       css_input := styles_input (api this);
       css_wrapper := "cdx-simple-image";
       css_imageHolder := "cdx-simple-image__picture";
       css_caption := "cdx-simple-image__caption" |} /\
  tunes this = image_tunes.
Proof.
  intros R. split; [|split; [|now apply reachable_tunes]].
  - now apply reachable_blockIndex.
  - induction R as [data0 api0 readOnly0|ev this _ IH]; [reflexivity|].
    destruct (step_config ev this) as (H1 & _ & _ & H4). now rewrite H1, H4.
Qed.

Lemma X14_configuration_is_constant_witness :
  reachable (step (EvToggleTune TuneStretched) rendered_tool) /\
  blockIndex (step (EvToggleTune TuneStretched) rendered_tool) = 1%Z.
Proof.
  assert (R : reachable (step (EvToggleTune TuneStretched) rendered_tool)).
  { apply reachable_step. change rendered_tool with (step EvRender example_tool).
    apply reachable_step, reachable_new. }
  split; [exact R|].
  rewrite (proj1 (X14_configuration_is_constant _ R)). reflexivity.
Defined.







Lemma render_nodes this :
  nodes (snd (render this)) =
  {| nodes_wrapper := Some (List.length (dom this));
     nodes_imageHolder := Some (List.length (dom this) + 2)%nat;
     nodes_image := Some (List.length (dom this) + 3)%nat;
     nodes_caption := Some (List.length (dom this) + 4)%nat |}.
Proof.
  unfold render. rewrite !make_result. cbv beta iota zeta.
  cbn [snd nodes with_nodes]. rewrite !length_app. cbn [List.length].
  f_equal; f_equal; lia.
Qed.

Lemma skeleton_length (d d' : Dom) :
  skeleton <$> d' = skeleton <$> d -> List.length d' = List.length d.
Proof.
  intros H. apply (f_equal List.length) in H. now rewrite !length_fmap in H.
Qed.

(** Events other than [render] and a load neither create elements nor touch
    the children and the handlers of an element. *)
Lemma step_tree ev this :
  changes_tree ev = false ->
  skeleton <$> dom (step ev this) = skeleton <$> dom this.
Proof.
  intros Hev.
  destruct ev as [|blockContent|event|i result|d|n|image|image];
    cbn [step]; try discriminate.
  - unfold save. destruct (querySelector (ByTag "img") blockContent); reflexivity.
  - destruct event as [img|key pasted|file|type]; cbn [onPaste];
      [destruct (is_HTMLImageElement img)|..];
      try reflexivity; apply set_data_skeleton.
  - unfold file_loaded. destruct (reading this !! i) as [file|]; [|reflexivity].
    destruct (onDropHandler file result); [|reflexivity].
    now rewrite set_data_skeleton.
  - apply set_data_skeleton.
  - unfold _toggleTune. now rewrite acceptTuneView_skeleton.
  - unfold image_error. destruct (dom this !! image) as [e|]; [|reflexivity].
    destruct (onerror e); reflexivity.
Qed.

Lemma step_length ev this :
  List.length (dom (step ev this)) =
  (List.length (dom this) + match ev with EvRender => 5 | _ => 0 end)%nat.
Proof.
  destruct ev as [|blockContent|event|i result|d|n|image|image];
    try (rewrite Nat.add_0_r; apply skeleton_length, step_tree; reflexivity).
  - cbn [step]. rewrite <- (length_fmap props), render_props.
    now rewrite length_app, length_fmap.
  - rewrite Nat.add_0_r. cbn [step]. unfold image_load.
    destruct (dom this !! image) as [e|]; [|reflexivity].
    destruct (onload e) as [h|]; [|reflexivity].
    rewrite <- (length_fmap skeleton), run_onload_skeleton.
    repeat (rewrite length_fmap || rewrite length_alter). reflexivity.
Qed.

Lemma step_nodes ev this :
  nodes (step ev this) =
  match ev with
  | EvRender => nodes (snd (render this))
  | _ => nodes this
  end.
Proof.
  destruct ev as [|blockContent|event|i result|d|n|image|image]; cbn [step].
  - reflexivity.
  - unfold save. destruct (querySelector (ByTag "img") blockContent); reflexivity.
  - destruct event as [img|key pasted|file|type]; cbn [onPaste];
      [destruct (is_HTMLImageElement img)|..];
      try reflexivity; apply set_data_frame.
  - unfold file_loaded. destruct (reading this !! i) as [file|]; [|reflexivity].
    destruct (onDropHandler file result); [|reflexivity].
    now rewrite (proj1 (proj2 (proj2 (proj2 (proj2 (set_data_frame _ _)))))).
  - apply set_data_frame.
  - unfold _toggleTune.
    now rewrite (proj1 (proj2 (acceptTuneView_same_object _))).
  - unfold image_load. destruct (dom this !! image) as [e|]; [|reflexivity].
    destruct (onload e) as [h|]; [|reflexivity]. unfold run_onload.
    now rewrite (proj1 (proj2 (acceptTuneView_same_object _))).
  - unfold image_error. destruct (dom this !! image) as [e|]; [|reflexivity].
    destruct (onerror e); reflexivity.
Qed.

Lemma reachable_nodes_ok this : reachable this -> nodes_ok this.
Proof.
  induction 1 as [data0 api0 readOnly0|ev this _ IH]; [now left|].
  unfold nodes_ok. rewrite step_nodes, step_length.
  destruct ev as [|blockContent|event|i result|d|k|image|image].
  1:{ right. exists (List.length (dom this)). split; [lia|apply render_nodes]. }
  all: destruct IH as [IH|(n & Hn & IH)];
    [left; exact IH|right; exists n; split; [lia|exact IH]].
Qed.

(** X16: in every reachable state the tool remembers no node, before the
    first [render], or the wrapper, the image holder, the image and the
    caption that one call of [render] created: four different elements that
    exist; and no child of an element is missing from the store. *)
Theorem X16_nodes_exist this :
  reachable this ->
  (nodes this = {| nodes_wrapper := None; nodes_imageHolder := None;
                   nodes_image := None; nodes_caption := None |} \/
   exists n : nat,
     (n + 5 <= List.length (dom this))%nat /\
     nodes this = {| nodes_wrapper := Some n;
                     nodes_imageHolder := Some (n + 2)%nat;
                     nodes_image := Some (n + 3)%nat;
                     nodes_caption := Some (n + 4)%nat |}) /\
  (forall n l c,
     children_of n this = Some l -> c ∈ l -> (c < List.length (dom this))%nat).
Proof.
  intros R. split; [exact (reachable_nodes_ok this R)|].
  intros n l c Hl Hc. pose proof (reachable_closed this R) as Hcl.
  unfold closed, closed_skeletons in Hcl. rewrite length_fmap in Hcl.
  unfold children_of in Hl.
  destruct (dom this !! n) as [e|] eqn:He; [|discriminate].
  injection Hl as <-.
  assert (Hs : (skeleton <$> dom this) !! n = Some (skeleton e))
    by (now rewrite list_lookup_fmap, He).
  pose proof (Forall_lookup_1 _ _ _ _ Hcl Hs) as Hf. cbn in Hf.
  rewrite Forall_forall in Hf. now apply Hf.
Qed.

Lemma X16_nodes_exist_witness :
  reachable rendered_tool /\
  forall n l c,
    children_of n rendered_tool = Some l -> c ∈ l ->
    (c < List.length (dom rendered_tool))%nat.
Proof.
  assert (R : reachable rendered_tool).
  { change rendered_tool with (step EvRender example_tool).
    apply reachable_step, reachable_new. }
  split; [exact R|]. exact (proj2 (X16_nodes_exist _ R)).
Defined.



(* --------------------------------------------------------------------- *)
(** ** More on file reads and on load events                               *)
(* --------------------------------------------------------------------- *)

Lemma file_loaded_string i file s this :
  reading this !! i = Some file ->
  file_loaded i (ResultString s) this =
  set_data {| url := Some s; caption := Some (name file); withBorder := None;
              withBackground := None; stretched := None |}
    (with_reading (delete i (reading this)) this).
Proof. intros H. unfold file_loaded. now rewrite H. Qed.

Lemma set_data_reading d this : reading (set_data d this) = reading this.
Proof. apply set_data_frame. Qed.

(** X18: when two files were pasted and both reads are pending, the data of
    the tool is decided by the read that completes last, not by the order of
    the pastes: its data URL, decoded, is the url and its name is the caption;
    the flags are kept and no read is left pending. *)
Theorem X18_last_completed_read_wins this f1 f2 s1 s2 :
  let n := List.length (reading this) in
  let pasted := onPaste (FilePaste f2) (onPaste (FilePaste f1) this) in
  let first_then_second :=
    file_loaded n (ResultString s2) (file_loaded n (ResultString s1) pasted) in
  let second_then_first :=
    file_loaded n (ResultString s1) (file_loaded (S n) (ResultString s2) pasted) in
  data first_then_second =
    {| url := Some (decodeHTMLEntities s2); caption := Some (name f2);
       withBorder := withBorder (data this);
       withBackground := withBackground (data this);
       stretched := stretched (data this) |} /\
  data second_then_first =
    {| url := Some (decodeHTMLEntities s1); caption := Some (name f1);
       withBorder := withBorder (data this);
       withBackground := withBackground (data this);
       stretched := stretched (data this) |} /\
  reading first_then_second = reading this /\
  reading second_then_first = reading this.
Proof.
  cbv zeta. cbn [onPaste].
  set (l := reading this).
  set (pasted := with_reading _ (with_reading _ this)).
  assert (Hp : reading pasted = l ++ [f1; f2])
    by (subst pasted; cbn [reading with_reading]; now rewrite <- app_assoc).
  assert (A1 : reading pasted !! List.length l = Some f1)
    by (rewrite Hp; now apply list_lookup_middle).
  assert (A2 : reading pasted !! S (List.length l) = Some f2).
  { rewrite Hp. change [f1; f2] with ([f1] ++ [f2]). rewrite app_assoc.
    apply list_lookup_middle. rewrite length_app. cbn. lia. }
  rewrite (file_loaded_string _ f1 s1 pasted A1).
  rewrite (file_loaded_string _ f2 s2 pasted A2).
  assert (D1 : delete (List.length l) (reading pasted) = l ++ [f2])
    by (rewrite Hp; apply delete_middle).
  assert (D2 : delete (S (List.length l)) (reading pasted) = l ++ [f1]).
  { rewrite Hp. change [f1; f2] with ([f1] ++ [f2]). rewrite app_assoc.
    replace (S (List.length l)) with (List.length (l ++ [f1]))
      by (rewrite length_app; cbn; lia).
    rewrite delete_middle. now rewrite app_nil_r. }
  rewrite D1, D2.
  rewrite (file_loaded_string (List.length l) f2 s2);
    [|rewrite set_data_reading; cbn [reading with_reading];
      now apply list_lookup_middle].
  rewrite (file_loaded_string (List.length l) f1 s1);
    [|rewrite set_data_reading; cbn [reading with_reading];
      now apply list_lookup_middle].
  rewrite !set_data_reading. cbn [reading with_reading].
  rewrite !set_data_data. cbn [data _data with_reading].
  rewrite !set_data_data. cbn [data _data with_reading].
  rewrite !delete_middle, !app_nil_r.
  repeat split; reflexivity.
Qed.

Lemma reachable_run evs this : reachable this -> reachable (run evs this).
Proof.
  revert this. induction evs as [|ev evs IH]; intros this R; [exact R|].
  change (run (ev :: evs) this) with (run evs (step ev this)).
  now apply IH, reachable_step.
Qed.

(** The children of the wrapper, of the image holder and of the image after
    the load handler has run, from their children before. *)
Lemma run_onload_lookup this n cw lw rw ch lh rh ci li ri :
  (skeleton <$> dom this) !! n = Some (cw, lw, rw) ->
  (skeleton <$> dom this) !! (n + 2)%nat = Some (ch, lh, rh) ->
  (skeleton <$> dom this) !! (n + 3)%nat = Some (ci, li, ri) ->
  let after := skeleton <$> dom (run_onload (rendered_handler n) this) in
  let rm (c : nat) := filter (fun x => x ≠ c) in
  after !! n =
    Some (rm (n + 1)%nat
            (rm (n + 4)%nat (rm (n + 2)%nat (rm (n + 3)%nat cw) ++ [(n + 2)%nat])
             ++ [(n + 4)%nat]), lw, rw) /\
  after !! (n + 2)%nat =
    Some (rm (n + 1)%nat
            (rm (n + 4)%nat
               (rm (n + 2)%nat (rm (n + 3)%nat ch ++ [(n + 3)%nat]))), lh, rh) /\
  after !! (n + 3)%nat =
    Some (rm (n + 1)%nat
            (rm (n + 4)%nat (rm (n + 2)%nat (rm (n + 3)%nat ci))), li, ri).
Proof.
  intros Hw Hh Hi. cbv zeta. rewrite run_onload_skeleton.
  cbn [rendered_handler h_wrapper h_loader h_imageHolder h_image h_caption].
  split; [|split].
  - rewrite list_lookup_fmap, list_lookup_alter_eq, list_lookup_fmap,
      list_lookup_alter_eq, list_lookup_fmap, list_lookup_alter_ne by lia.
    rewrite list_lookup_fmap, Hw. reflexivity.
  - rewrite list_lookup_fmap, list_lookup_alter_ne, list_lookup_fmap,
      list_lookup_alter_ne, list_lookup_fmap, list_lookup_alter_eq by lia.
    rewrite list_lookup_fmap, Hh. reflexivity.
  - rewrite list_lookup_fmap, list_lookup_alter_ne, list_lookup_fmap,
      list_lookup_alter_ne, list_lookup_fmap, list_lookup_alter_ne by lia.
    rewrite list_lookup_fmap, Hi. reflexivity.
Qed.

(** X19: the loaded state is stable. When the image of a rendered tool has
    loaded and, after any events other than loads (a paste that replaces the
    url, say), it loads again, the children of the wrapper are again the
    image holder and the caption, in this order, and the image holder holds
    the image. *)
Theorem X19_second_load_keeps_the_loaded_state this evs evs' :
  reachable this ->
  no_load evs = true ->
  no_load evs' = true ->
  let wrapper := List.length (dom this) in
  let imageHolder := (wrapper + 2)%nat in
  let image := (wrapper + 3)%nat in
  let cap := (wrapper + 4)%nat in
  let loaded := image_load image (run evs (snd (render this))) in
  let again := image_load image (run evs' loaded) in
  children_of wrapper loaded = Some [imageHolder; cap] /\
  children_of imageHolder loaded = Some [image] /\
  children_of wrapper again = Some [imageHolder; cap] /\
  children_of imageHolder again = Some [image].
Proof.
  intros R Hn Hn'. cbv zeta.
  set (n := List.length (dom this)).
  pose proof (reachable_closed this R) as Hc.
  destruct (rendered_then_no_load this evs Hc Hn) as (extra & Hl).
  fold n in Hl.
  assert (Hlen : List.length (skeleton <$> dom this) = n)
    by now rewrite length_fmap.
  pose proof (lookup_rendered_wrapper _ extra n Hlen) as K0.
  pose proof (lookup_rendered_holder _ extra n Hlen) as K2.
  pose proof (lookup_rendered_image _ extra n Hlen) as K3.
  rewrite <- Hl in K0, K2, K3. fold (rendered_handler n) in K3.
  set (later := run evs (snd (render this))) in *.
  assert (Rl : reachable later).
  { subst later. apply reachable_run.
    change (snd (render this)) with (step EvRender this).
    now apply reachable_step. }
  destruct (skeleton_lookup _ _ _ _ _ K3) as (e & He & _ & Hload & _).
  assert (El : image_load (n + 3) later = run_onload (rendered_handler n) later)
    by (unfold image_load; now rewrite He, Hload).
  destruct (run_onload_lookup later n _ _ _ _ _ _ _ _ _ K0 K2 K3)
    as (L0 & L2 & L3).
  rewrite <- El in L0, L2, L3.
  set (loaded := image_load (n + 3) later) in *.
  cbv beta in L0, L2, L3.
  assert (L0' : (skeleton <$> dom loaded) !! n =
                Some ([(n + 2)%nat; (n + 4)%nat], None, false)).
  { rewrite L0. simplify_children. reflexivity. }
  assert (L2' : (skeleton <$> dom loaded) !! (n + 2)%nat =
                Some ([(n + 3)%nat], None, false)).
  { rewrite L2. simplify_children. reflexivity. }
  assert (L3' : (skeleton <$> dom loaded) !! (n + 3)%nat =
                Some ([], Some (rendered_handler n), true)).
  { rewrite L3. simplify_children. reflexivity. }
  clear L0 L2 L3.
  assert (Rd : reachable loaded).
  { subst loaded. change (image_load (n + 3) later) with
      (step (EvImageLoad (n + 3)) later). now apply reachable_step. }
  destruct (run_skeleton evs' loaded Hn' (reachable_closed _ Rd))
    as (extra' & He' & _).
  set (after := run evs' loaded) in *.
  assert (M0 : (skeleton <$> dom after) !! n =
               Some ([(n + 2)%nat; (n + 4)%nat], None, false))
    by (rewrite He'; now apply lookup_app_l_Some).
  assert (M2 : (skeleton <$> dom after) !! (n + 2)%nat =
               Some ([(n + 3)%nat], None, false))
    by (rewrite He'; now apply lookup_app_l_Some).
  assert (M3 : (skeleton <$> dom after) !! (n + 3)%nat =
               Some ([], Some (rendered_handler n), true))
    by (rewrite He'; now apply lookup_app_l_Some).
  destruct (skeleton_lookup _ _ _ _ _ M3) as (e' & He2 & _ & Hload' & _).
  assert (Ea : image_load (n + 3) after = run_onload (rendered_handler n) after)
    by (unfold image_load; now rewrite He2, Hload').
  destruct (run_onload_lookup after n _ _ _ _ _ _ _ _ _ M0 M2 M3)
    as (N0 & N2 & _).
  rewrite <- Ea in N0, N2. cbv beta in N0, N2.
  split; [|split; [|split]].
  - eapply children_of_skeleton. exact L0'.
  - eapply children_of_skeleton. exact L2'.
  - eapply children_of_skeleton. rewrite N0. simplify_children. reflexivity.
  - eapply children_of_skeleton. rewrite N2. simplify_children. reflexivity.
Qed.

Lemma X19_second_load_keeps_the_loaded_state_witness :
  reachable example_tool /\
  no_load example_events = true /\
  children_of 0
    (image_load 3
       (run example_events
          (image_load 3 (run example_events (snd (render example_tool)))))) =
  Some [2%nat; 4%nat].
Proof.
  assert (R : reachable example_tool) by apply reachable_new.
  split; [exact R|]. split; [reflexivity|].
  exact (proj1 (proj2 (proj2
           (X19_second_load_keeps_the_loaded_state example_tool example_events
              example_events R eq_refl eq_refl)))).
Defined.
